(** * registration_checker.py: a shallow embedding and its verification

    The program reads voter records, asks a remote registration service about
    every voter once per candidate birth month, and keeps the voters that are
    registered and whose absentee-ballot application is on record.

    Layout: Python built-ins the program relies on ([PyBuiltins]), the
    [Voter] class, the runtime the program runs against ([Runtime]), the
    [RegistrationAPIExecutor] and [RegistrationChecker] classes, concrete
    scenarios, and then the theorems.

    Python [str] values are modelled as [string]s of ASCII characters and
    Python [int]s as [Z]. *)

From Stdlib Require Import ZArith Ascii DecimalString DecimalZ DecimalPos Sorted.
From stdpp Require Import base gmap sets list strings functions.

(** ** Python built-ins *)

Module PyBuiltins.

(** The values an attribute or a dictionary entry of this program can hold. *)
Inductive Value :=
| VNone
| VInt (z : Z)
| VStr (s : string).

Inductive Exn :=
| ValueError (msg : string)
| TypeError (msg : string).

(** Fallible code: [inl] is a raised exception. *)
Definition Except (A : Type) : Type := Exn + A.

Definition raise {A} (e : Exn) : Except A := inl e.
Definition ret {A} (a : A) : Except A := inr a.
Definition bind {A B} (m : Except A) (k : A → Except B) : Except B :=
  match m with
  | inl e => inl e
  | inr a => k a
  end.

Notation "'do' x <- m ; k" := (bind m (λ x, k))
  (at level 10, x name, m at level 100, k at level 200).

Fixpoint mapE {A B} (f : A → Except B) (l : list A) : Except (list B) :=
  match l with
  | [] => ret []
  | a :: l' => do b <- f a; do bs <- mapE f l'; ret (b :: bs)
  end.

(** Truth value of an object: [None], [0] and [''] are false. *)
Definition truthy (v : Value) : bool :=
  match v with
  | VNone => false
  | VInt z => negb (z =? 0)%Z
  | VStr s => negb (String.eqb s "")
  end.

(** [a == b] on the values above. *)
Definition py_eq (a b : Value) : bool :=
  match a, b with
  | VNone, VNone => true
  | VInt x, VInt y => (x =? y)%Z
  | VStr s, VStr t => String.eqb s t
  | _, _ => false
  end.

(** [s.split(sep)] for a one-character separator: never empty, one more
    field than there are separators. *)
Fixpoint split (sep : ascii) (s : string) : list string :=
  match s with
  | EmptyString => [EmptyString]
  | String c rest =>
      if Ascii.eqb c sep then EmptyString :: split sep rest
      else match split sep rest with
           | [] => [String c EmptyString]
           | field :: fields => String c field :: fields
           end
  end.

(** [sep.join(l)]. *)
Definition join (sep : string) (l : list string) : string := String.concat sep l.

(** [needle in hay] on strings. *)
Fixpoint py_in (needle hay : string) : bool :=
  String.prefix needle hay ||
  match hay with
  | EmptyString => false
  | String _ rest => py_in needle rest
  end.

(** White space as [int()] skips it around an ASCII literal. *)
Definition is_space (c : ascii) : bool :=
  let n := nat_of_ascii c in (n =? 32) || ((9 <=? n) && (n <=? 13)).

(** White space as [str.strip()] removes it (ASCII range): the above and the
    separators 28..31. *)
Definition is_strip_space (c : ascii) : bool :=
  let n := nat_of_ascii c in is_space c || ((28 <=? n) && (n <=? 31)).

Fixpoint lstrip_with (sp : ascii → bool) (s : string) : string :=
  match s with
  | EmptyString => EmptyString
  | String c rest => if sp c then lstrip_with sp rest else s
  end.

Fixpoint rstrip_with (sp : ascii → bool) (s : string) : string :=
  match s with
  | EmptyString => EmptyString
  | String c rest =>
      match rstrip_with sp rest with
      | EmptyString => if sp c then EmptyString else String c EmptyString
      | kept => String c kept
      end
  end.

Definition strip_with (sp : ascii → bool) (s : string) : string :=
  rstrip_with sp (lstrip_with sp s).

(** [s.strip()]. *)
Definition strip (s : string) : string := strip_with is_strip_space s.

Definition digit_of (c : ascii) : option (Decimal.uint → Decimal.uint) :=
  match nat_of_ascii c with
  | 48 => Some Decimal.D0
  | 49 => Some Decimal.D1
  | 50 => Some Decimal.D2
  | 51 => Some Decimal.D3
  | 52 => Some Decimal.D4
  | 53 => Some Decimal.D5
  | 54 => Some Decimal.D6
  | 55 => Some Decimal.D7
  | 56 => Some Decimal.D8
  | 57 => Some Decimal.D9
  | _ => None
  end.

(** The digits of a decimal literal: at least one digit, and underscores
    only singly between two digits. [after_digit] tells whether the
    character just read was a digit. *)
Fixpoint digits (after_digit : bool) (s : string) : option Decimal.uint :=
  match s with
  | EmptyString => if after_digit then Some Decimal.Nil else None
  | String c rest =>
      if Ascii.eqb c "_"%char then
        if after_digit then digits false rest else None
      else
        match digit_of c with
        | Some d => d <$> digits true rest
        | None => None
        end
  end.

(** [int(s)] for a string: surrounding white space, an optional sign, then
    the digits; [None] stands for the [ValueError] raised otherwise. (The
    interpreter's optional cap on the number of digits is not modelled.) *)
Definition py_int (s : string) : option Z :=
  match strip_with is_space s with
  | String "-" rest => (λ d, Z.of_int (Decimal.Neg d)) <$> digits false rest
  | String "+" rest => (λ d, Z.of_int (Decimal.Pos d)) <$> digits false rest
  | body => (λ d, Z.of_int (Decimal.Pos d)) <$> digits false body
  end.

(** [str(z)] for an integer. *)
Definition py_str (z : Z) : string := NilZero.string_of_int (Z.to_int z).

(** [int(v)] on a value. *)
Definition int_ (v : Value) : Except Z :=
  match v with
  | VNone => raise (TypeError "int() argument must be a string or a number")
  | VInt z => ret z
  | VStr s =>
      match py_int s with
      | Some z => ret z
      | None => raise (ValueError "invalid literal for int() with base 10")
      end
  end.

(** A value inside an f-string. *)
Definition format (v : Value) : string :=
  match v with
  | VNone => "None"
  | VInt z => py_str z
  | VStr s => s
  end.

(** [l.sort(key=...)]: the stable sort by ascending key. *)
Fixpoint insert_by {A} (key : A → Z) (x : A) (l : list A) : list A :=
  match l with
  | [] => [x]
  | y :: l' => if (key x <=? key y)%Z then x :: l else y :: insert_by key x l'
  end.

Fixpoint sort_by {A} (key : A → Z) (l : list A) : list A :=
  match l with
  | [] => []
  | x :: l' => insert_by key x (sort_by key l')
  end.

(** Objects live in a store; a [Ref] is an object's identity. *)
Definition Ref : Type := nat.

(** [a == b] on objects of a class that defines no [__eq__]: the inherited
    comparison, which is identity. *)
Definition object_eq (a b : Ref) : bool := Nat.eqb a b.

(** [l[lo:-hi]] for literal bounds [lo] and [hi > 0]. *)
Definition slice_from_to_last {A} (lo hi : nat) (l : list A) : list A :=
  take (length l - lo - hi) (drop lo l).

End PyBuiltins.
Import PyBuiltins.

(** ** class Voter *)

Module Voter.

(** The attributes of a [Voter] object. [birth_month] holds [None], an
    [int], or the empty string a record with an empty month field leaves. *)
Record t := mk {
  first : string;
  last : string;
  birth_month : Value;
  birth_year : Z;
  zip : string
}.

Definition with_birth_month (v : t) (m : Value) : t :=
  mk (first v) (last v) m (birth_year v) (zip v).

(** The tail of [__init__]: the two conversions, year first. *)
Definition convert (f l : string) (m : Value) (y z : string) : Except t :=
  do year <- int_ (VStr y);
  if truthy m
  then do month <- int_ m; ret (mk f l (VInt month) year z)
  else ret (mk f l m year z).

Definition __init__ (entry : string) : Except t :=
  match split ","%char entry with
  | [f; l; y; z] => convert f l VNone y z
  | [f; l; m; y; z] =>
      convert f l (if String.eqb m "Unknown" then VNone else VStr m) y z
  | _ => raise (ValueError "String used in voter constructor must contain 4 or 5 commas.")
  end.

Section Hash.
(** The interpreter's [hash] on strings. *)
Variable py_hash : string → Z.

Definition __hash__ (v : t) : Z :=
  py_hash (join " - " [first v; last v; py_str (birth_year v); zip v]).
End Hash.

Definition __str__ (v : t) : string :=
  first v +:+ "," +:+ last v +:+ "," +:+
  format (if truthy (birth_month v) then birth_month v else VStr "Unknown")
  +:+ "," +:+ py_str (birth_year v) +:+ "," +:+ zip v.

(** A request's form fields, in the order the dictionary lists them. *)
Definition Args : Type := list (string * Value).

Definition get_api_args (v : t) (month : Z) : Args :=
  [ ("FirstName", VStr (first v));
    ("LastName", VStr (last v));
    ("NameBirthMonth", VInt month);
    ("NameBirthYear", VInt (birth_year v));
    ("ZipCode", VStr (zip v));
    ("Dln", VStr "");
    ("DlnBirthMonth", VStr "0");
    ("DlnBirthYear", VStr "");
    ("DpaID", VStr "0");
    ("Months", VStr "");
    ("VoterNotFound", VStr "false");
    ("TransistionVoter", VStr "false") ].

End Voter.

(** ** The runtime: remote service, event loop, set iteration *)

(** What one request attempt yields: the response text, or an exception. *)
Inductive Result :=
| Ok (text : string)
| Raised (e : string).

(** Observable effects of a request task. *)
Inductive Event :=
| EvPost (url : string) (argument : Voter.Args) (r : Result)
| EvPrintAttempt (attempt_no : nat) (url : string) (argument : Voter.Args) (e : string)
| EvSleep (seconds : Z)
| EvPrintUnable (url : string) (argument : Voter.Args).

(** Everything outside the program that its behaviour depends on.
    - [post url argument w]: [session.post(url, data=argument)] followed by
      [resp.text()], against the outside world in state [w];
    - [resume_order w]: the order in which the event loop resumes the tasks of
      the fan-out started in state [w] (by position in the task list);
    - [set_order s]: the order in which iterating over the set [s] yields its
      elements, each exactly once. *)
Class Runtime := {
  World : Type;
  post : string → Voter.Args → World → Result * World;
  resume_order : World → list nat;
  set_order : gset nat → list nat;
  set_order_perm : ∀ s, set_order s ≡ₚ elements s
}.

(** ** class RegistrationAPIExecutor *)

Module RegistrationAPIExecutor.

(** The store of [Voter] objects. *)
Definition Heap : Type := Ref → Voter.t.

(** The state of one [_api_call] coroutine: about to enter [async with sem]
    with the attempt numbers [todo] of [range(5)] still ahead, holding a slot
    of the semaphore while the request of attempt [attempt_no] is under way,
    or returned. *)
Inductive Task :=
| Waiting (todo : list nat) (argument : Voter.Args)
| InFlight (attempt_no : nat) (todo : list nat) (argument : Voter.Args)
| Finished (r : option string).

(** The event loop of one [api_multi_call]: the tasks in creation order, the
    free slots of the semaphore, the outside world, and the effects so far,
    each tagged with the position of the task that caused it. *)
Record Loop {W : Type} := mkLoop {
  tasks : list Task;
  sem : nat;
  net : W;
  trace : list (nat * Event)
}.
Global Arguments Loop : clear implicits.
Global Arguments mkLoop {W}.

(** One round's fan-out, as the ghost log of the search records it. *)
Record Fanout := mkFanout {
  fo_month : Z;
  fo_requests : list Voter.Args;
  fo_responses : list (option string);
  fo_trace : list (nat * Event)
}.

(** The variables of [get_voters_with_absentee_ballots], the store, the
    outside world, and the ghost log [fanouts] (oldest first). *)
Record State {W : Type} := mkState {
  heap : Heap;
  voters : list Ref;
  registered_voters : gset Ref;
  voters_with_ballots : gset Ref;
  world : W;
  fanouts : list Fanout
}.
Global Arguments State : clear implicits.
Global Arguments mkState {W}.

Definition registration_url : string := "https://mvic.sos.state.mi.us/Voter/SearchByName".
Definition registered_marker : string := "Yes, you are registered!".
Definition no_application_marker : string :=
  "Your clerk has not recorded receiving your AV Application.".

Section WithRuntime.
Context `{RT : Runtime}.

(** *** _api_call *)

(** The loop [for attempt_no in range(5)] over the attempt numbers [todo]. *)
Fixpoint attempts (todo : list nat) (url : string) (argument : Voter.Args) (w : World)
  : option string * World * list Event :=
  match todo with
  | [] => (None, w, [EvPrintUnable url argument])
  | attempt_no :: todo' =>
      match post url argument w with
      | (Ok r, w') => (Some r, w', [EvPost url argument (Ok r)])
      | (Raised e, w') =>
          let '(res, w'', evs) := attempts todo' url argument w' in
          (res, w'',
           EvPost url argument (Raised e)
             :: EvPrintAttempt attempt_no url argument e :: EvSleep 5 :: evs)
      end
  end.

(** The coroutine run on its own, from call to return. *)
Definition _api_call (url : string) (argument : Voter.Args) (w : World)
  : option string * World * list Event :=
  attempts (seq 0 5) url argument w.

(** The coroutine resumed once, up to its next suspension: entering
    [async with sem] takes a free slot or stays blocked; the request under
    way completes, frees the slot, and either returns the text or reports
    the failure and sleeps; with no attempt left it gives up. *)
Definition resume (url : string) (t : Task) (free : nat) (w : World)
  : Task * nat * World * list Event :=
  match t with
  | Waiting [] argument => (Finished None, free, w, [EvPrintUnable url argument])
  | Waiting (attempt_no :: todo) argument =>
      match free with
      | 0 => (t, free, w, [])
      | S free' => (InFlight attempt_no todo argument, free', w, [])
      end
  | InFlight attempt_no todo argument =>
      match post url argument w with
      | (Ok r, w') => (Finished (Some r), S free, w', [EvPost url argument (Ok r)])
      | (Raised e, w') =>
          (Waiting todo argument, S free, w',
           [EvPost url argument (Raised e);
            EvPrintAttempt attempt_no url argument e; EvSleep 5])
      end
  | Finished _ => (t, free, w, [])
  end.

(** *** api_multi_call *)

Definition resume_task (url : string) (i : nat) (L : Loop World) : Loop World :=
  match tasks L !! i with
  | None => L
  | Some t =>
      let '(t', free, w, evs) := resume url t (sem L) (net L) in
      mkLoop (<[i := t']> (tasks L)) free w (trace L ++ ((λ ev, (i, ev)) <$> evs))
  end.

Definition run (url : string) (order : list nat) (L : Loop World) : Loop World :=
  fold_left (λ L i, resume_task url i L) order L.

(** [run_until_complete]: once the given resume order is used up, whatever is
    still pending is driven to the end, first the requests under way, then
    every task in turn (at most 5 attempts of two steps, and the final
    report). *)
Definition settle (url : string) (L : Loop World) (i : nat) : Loop World :=
  match tasks L !! i with
  | Some (InFlight _ _ _) => resume_task url i L
  | _ => L
  end.

Definition finish (url : string) (L : Loop World) (i : nat) : Loop World :=
  Nat.iter 11 (resume_task url i) L.

Definition drain (url : string) (L : Loop World) : Loop World :=
  let positions := seq 0 (length (tasks L)) in
  fold_left (finish url) positions (fold_left (settle url) positions L).

(** What [gather] reads off a task. *)
Definition task_result (t : Task) : option string :=
  match t with
  | Finished r => r
  | _ => None
  end.

Definition interior (url : string) (arguments : list Voter.Args) (w : World)
  : Loop World :=
  let L0 := mkLoop (Waiting (seq 0 5) <$> arguments) 50 w [] in
  drain url (run url (resume_order w) L0).

Definition api_multi_call (url : string) (arguments : list Voter.Args) (w : World)
  : list (option string) * World * list (nat * Event) :=
  let L := interior url arguments w in
  (task_result <$> tasks L, net L, trace L).

(** *** get_voters_with_absentee_ballots *)

(** The filter of the comprehension that builds [args]. *)
Definition eligible (h : Heap) (month : Z) (voter : Ref) : bool :=
  negb (truthy (Voter.birth_month (h voter)))
  || py_eq (Voter.birth_month (h voter)) (VInt month).

Definition requests (st : State World) (month : Z) : list Voter.Args :=
  (λ voter, Voter.get_api_args (heap st voter) month)
    <$> List.filter (eligible (heap st) month) (voters st).

(** The body of [for voter, response_page in zip(voters, responses)]; a
    response is tested only when it is neither [None] nor empty. *)
Definition classify (month : Z) (acc : Heap * gset Ref * gset Ref)
    (pair : Ref * option string) : Heap * gset Ref * gset Ref :=
  let '(h, registered, with_ballots) := acc in
  let '(voter, response_page) := pair in
  match response_page with
  | Some page =>
      if truthy (VStr page) && py_in registered_marker page then
        if negb (py_in no_application_marker page) then
          (<[voter := Voter.with_birth_month (h voter) (VInt month)]> h,
           {[voter]} ∪ registered, {[voter]} ∪ with_ballots)
        else (h, {[voter]} ∪ registered, with_ballots)
      else acc
  | None => acc
  end.

(** The body of [for month in range(1, 13)]. *)
Definition round (st : State World) (month : Z) : State World :=
  let args := requests st month in
  let '(responses, w, tr) := api_multi_call registration_url args (world st) in
  let '(h, registered, with_ballots) :=
    fold_left (classify month) (zip (voters st) responses)
      (heap st, registered_voters st, voters_with_ballots st) in
  mkState h
    (List.filter (λ v, bool_decide (v ∉ registered)) (voters st))
    registered with_ballots w
    (fanouts st ++ [mkFanout month args responses tr]).

(** [range(1, 13)]. *)
Definition months : list Z := Z.of_nat <$> seq 1 12.

Definition initial (h : Heap) (voters : list Ref) (w : World) : State World :=
  mkState h voters ∅ ∅ w [].

(** The state after the first [n] iterations of the loop over the months. *)
Definition after_rounds (n : nat) (h : Heap) (voters : list Ref) (w : World)
  : State World :=
  fold_left round (take n months) (initial h voters w).

(** The state when the loop is left. *)
Definition search (h : Heap) (voters : list Ref) (w : World) : State World :=
  fold_left round months (initial h voters w).

Definition get_voters_with_absentee_ballots (h : Heap) (voters : list Ref) (w : World)
  : list Ref * Heap * World :=
  let st := search h voters w in
  (set_order (voters_with_ballots st), heap st, world st).

End WithRuntime.

Global Arguments resume_task : simpl never.
Global Arguments settle : simpl never.
Global Arguments finish : simpl never.
Global Arguments drain : simpl never.
Global Arguments interior : simpl never.
Global Arguments api_multi_call : simpl never.
Global Arguments round : simpl never.

End RegistrationAPIExecutor.

(** ** class RegistrationChecker *)

Module RegistrationChecker.
Import RegistrationAPIExecutor.

Global Instance voter_inhabited : Inhabited Voter.t :=
  populate (Voter.mk "" "" VNone 0 "").

(** The store after [voters = [Voter(row) for row in rows]]: the i-th object
    created is the object [i]. *)
Definition heap_of (objects : list Voter.t) : Heap := λ r, objects !!! r.

Definition newline : ascii := ascii_of_nat 10.

Section WithRuntime.
Context `{RT : Runtime}.

(** The voters found, after
    [voters_with_absentee_ballots.sort(key=lambda v: v.birth_year)]. *)
Definition sorted_voters (h : Heap) (voters : list Ref) (w : World)
  : list Ref * Heap * World :=
  let '(found, h', w') := get_voters_with_absentee_ballots h voters w in
  (sort_by (λ v, Voter.birth_year (h' v)) found, h', w').

(** From the contents of the input file to the contents of the output file. *)
Definition get_voters_with_ballots (infile : string) (w : World)
  : Except (string * World) :=
  let rows := slice_from_to_last 2 1 (split newline (strip infile)) in
  do objects <- mapE Voter.__init__ rows;
  let '(found, h, w') :=
    sorted_voters (heap_of objects) (seq 0 (length objects)) w in
  ret (join (String newline "") ((λ v, Voter.__str__ (h v)) <$> found), w').

End WithRuntime.
End RegistrationChecker.

(** ** Vocabulary of the statements *)

Fixpoint all_chars (P : ascii → bool) (s : string) : bool :=
  match s with
  | EmptyString => true
  | String c rest => P c && all_chars P rest
  end.

(** No occurrence of the separator [sep]. *)
Definition sep_free (sep : ascii) (s : string) : bool :=
  all_chars (λ c, negb (Ascii.eqb c sep)) s.

Definition is_digit (c : ascii) : bool :=
  match digit_of c with
  | Some _ => true
  | None => false
  end.

(** The characters [str] of an integer is made of. *)
Definition digit_or_minus (c : ascii) : bool := is_digit c || Ascii.eqb c "-"%char.

(** A string [int()] accepts. *)
Definition numeric (s : string) : Prop := is_Some (py_int s).

(** The [Voter] objects a run can hold: built by the constructor from a
    record, then possibly given a birth month by the search. *)
Inductive entry : Voter.t → Prop :=
| entry_init record v : Voter.__init__ record = inr v → entry v
| entry_month v month : entry v → entry (Voter.with_birth_month v (VInt month)).

(** Agreement on the four fields that [__hash__] reads. *)
Definition same_identity (a b : Voter.t) : Prop :=
  Voter.first a = Voter.first b ∧ Voter.last a = Voter.last b ∧
  Voter.birth_year a = Voter.birth_year b ∧ Voter.zip a = Voter.zip b.

(** The five fields of a serialized record. *)
Definition record_of (f l m y z : string) : string :=
  f +:+ "," +:+ l +:+ "," +:+ m +:+ "," +:+ y +:+ "," +:+ z.

(** What the constructor guarantees about an object's fields. *)
Definition well_formed (v : Voter.t) : Prop :=
  sep_free "," (Voter.first v) = true ∧ sep_free "," (Voter.last v) = true ∧
  sep_free "," (Voter.zip v) = true ∧
  (Voter.birth_month v = VNone ∨ Voter.birth_month v = VStr "" ∨
   ∃ month, Voter.birth_month v = VInt month).


Definition is_post (ev : Event) : bool :=
  match ev with
  | EvPost _ _ _ => true
  | _ => false
  end.


Section Outcomes.
Context `{RT : Runtime}.


End Outcomes.

(** The requests that the task at position [i] made, oldest first. *)
Definition post_events (i : nat) (tr : list (nat * Event)) : list Event :=
  List.filter is_post (snd <$> List.filter (λ p, p.1 =? i) tr).

(** Requests for [argument] that raised the errors [errs], in turn. *)
Definition failures (url : string) (argument : Voter.Args) (errs : list string)
  : list Event :=
  (λ e, EvPost url argument (Raised e)) <$> errs.

Definition in_flight (t : RegistrationAPIExecutor.Task) : Prop :=
  match t with
  | RegistrationAPIExecutor.InFlight _ _ _ => True
  | _ => False
  end.

Definition finished (t : RegistrationAPIExecutor.Task) : Prop :=
  match t with
  | RegistrationAPIExecutor.Finished _ => True
  | _ => False
  end.

(** How many more times a task can be resumed before it has returned. *)
Definition steps_left (t : RegistrationAPIExecutor.Task) : nat :=
  match t with
  | RegistrationAPIExecutor.Waiting todo _ => 2 * length todo + 1
  | RegistrationAPIExecutor.InFlight _ todo _ => 2 * length todo + 2
  | RegistrationAPIExecutor.Finished _ => 0
  end.

(** What the effects so far say about the task at position [i]: it serves
    the [i]-th argument, its failed attempts are the requests it made, and a
    returned task made the requests its result tells. *)
Definition task_ok (url : string) (arguments : list Voter.Args)
    (tr : list (nat * Event)) (i : nat) (t : RegistrationAPIExecutor.Task) : Prop :=
  ∃ a errs, arguments !! i = Some a ∧
    match t with
    | RegistrationAPIExecutor.Waiting todo a' =>
        a' = a ∧ length errs ≤ 5 ∧ todo = seq (length errs) (5 - length errs)
        ∧ post_events i tr = failures url a errs
    | RegistrationAPIExecutor.InFlight n todo a' =>
        a' = a ∧ n = length errs ∧ n < 5 ∧ todo = seq (S n) (4 - n)
        ∧ post_events i tr = failures url a errs
    | RegistrationAPIExecutor.Finished (Some text) =>
        length errs < 5
        ∧ post_events i tr = failures url a errs ++ [EvPost url a (Ok text)]
    | RegistrationAPIExecutor.Finished None =>
        length errs = 5 ∧ post_events i tr = failures url a errs
    end.

(** The invariants of the event loop: every task agrees with the effects so
    far; the semaphore has a free slot whenever no request is under way; no
    task is more than eleven resumptions from its return. *)
Definition loop_ok {W} (url : string) (arguments : list Voter.Args)
    (L : RegistrationAPIExecutor.Loop W) : Prop :=
  length (RegistrationAPIExecutor.tasks L) = length arguments
  ∧ ∀ i t, RegistrationAPIExecutor.tasks L !! i = Some t →
      task_ok url arguments (RegistrationAPIExecutor.trace L) i t.

Definition gate_ok {W} (L : RegistrationAPIExecutor.Loop W) : Prop :=
  Forall (λ t, ¬ in_flight t) (RegistrationAPIExecutor.tasks L) →
  0 < RegistrationAPIExecutor.sem L.

Definition bounded {W} (L : RegistrationAPIExecutor.Loop W) : Prop :=
  Forall (λ t, steps_left t ≤ 11) (RegistrationAPIExecutor.tasks L).

Section Rounds.
Context `{RT : Runtime}.
Import RegistrationAPIExecutor.

(** The responses a round's fan-out returns, and the pairs it classifies. *)
Definition responses_of (st : State World) (month : Z) : list (option string) :=
  (api_multi_call registration_url (requests st month) (world st)).1.1.

Definition classified (st : State World) (month : Z) : list (Ref * option string) :=
  zip (voters st) (responses_of st month).

(** In the round of [month], a response classified against [v] has the
    marker of a registration. *)
Definition registered_hit (st : State World) (month : Z) (v : Ref) : Prop :=
  ∃ text, (v, Some text) ∈ classified st month
    ∧ py_in registered_marker text = true.

(** In the round of [month], a response classified against [v] has the
    marker of a registration and lacks the marker of the missing
    application. *)
Definition ballot_hit (st : State World) (month : Z) (v : Ref) : Prop :=
  ∃ text, (v, Some text) ∈ classified st month
    ∧ py_in registered_marker text = true
    ∧ py_in no_application_marker text = false.

End Rounds.

(** Ascending order of birth year, under the store [h]. *)
Definition ascending_by_year (h : RegistrationAPIExecutor.Heap) (l : list Ref) : Prop :=
  StronglySorted (λ a b, (Voter.birth_year (h a) ≤ Voter.birth_year (h b))%Z) l.

(** What holds between rounds: nobody in the working list is registered
    yet, and the voters with ballots are among the registered ones. *)
Definition search_inv {W} (st : RegistrationAPIExecutor.State W) : Prop :=
  (∀ v, v ∈ RegistrationAPIExecutor.voters st →
        v ∉ RegistrationAPIExecutor.registered_voters st)
  ∧ RegistrationAPIExecutor.voters_with_ballots st
    ⊆ RegistrationAPIExecutor.registered_voters st.

(** The number of occurrences of [c] in [s]. *)
Fixpoint count_char (c : ascii) (s : string) : nat :=
  match s with
  | EmptyString => 0
  | String c' rest => (if Ascii.eqb c' c then 1 else 0) + count_char c rest
  end.

(** The four fields of a record without a birth month. *)
Definition short_record_of (f l y z : string) : string :=
  f +:+ "," +:+ l +:+ "," +:+ y +:+ "," +:+ z.

(** The two errors the constructor raises. *)
Definition bad_literal : Exn := ValueError "invalid literal for int() with base 10".
Definition bad_fields : Exn :=
  ValueError "String used in voter constructor must contain 4 or 5 commas.".






Definition holds_slot (t : RegistrationAPIExecutor.Task) : bool :=
  match t with
  | RegistrationAPIExecutor.InFlight _ _ _ => true
  | _ => false
  end.

(** The number of tasks whose request is under way. *)
Definition in_flight_count (ts : list RegistrationAPIExecutor.Task) : nat :=
  length (List.filter holds_slot ts).

(** The event loop as [interior] sets it up: one task per descriptor, all
    fifty slots free. *)
Definition start {W} (arguments : list Voter.Args) (w : W)
  : RegistrationAPIExecutor.Loop W :=
  RegistrationAPIExecutor.mkLoop
    (RegistrationAPIExecutor.Waiting (seq 0 5) <$> arguments) 50 w [].

(** Every slot is either free or held by a request under way. *)
Definition slots_ok {W} (L : RegistrationAPIExecutor.Loop W) : Prop :=
  RegistrationAPIExecutor.sem L
  + in_flight_count (RegistrationAPIExecutor.tasks L) = 50.

(** The rows [get_voters_with_ballots] parses: the lines of the stripped
    file but the first two and the last. *)
Definition rows_of (infile : string) : list string :=
  slice_from_to_last 2 1 (split RegistrationChecker.newline (strip infile)).

Section Remaining.
Context `{RT : Runtime}.

(** What is left of an [_api_call] coroutine in state [t]: its result, the
    world and the effects to come when it runs on, undisturbed, from the
    world [w]. *)
Definition remaining (url : string) (t : RegistrationAPIExecutor.Task) (w : World)
  : option string * World * list Event :=
  match t with
  | RegistrationAPIExecutor.Waiting todo a =>
      RegistrationAPIExecutor.attempts todo url a w
  | RegistrationAPIExecutor.InFlight n todo a =>
      RegistrationAPIExecutor.attempts (n :: todo) url a w
  | RegistrationAPIExecutor.Finished r => (r, w, [])
  end.

(** A loop with a single task that is on its way to the outcome [target]. *)
Definition alone (url : string) (target : option string * World * list (nat * Event))
    (L : RegistrationAPIExecutor.Loop World) : Prop :=
  ∃ t, RegistrationAPIExecutor.tasks L = [t]
    ∧ (0 < RegistrationAPIExecutor.sem L ∨ in_flight t)
    ∧ ((remaining url t (RegistrationAPIExecutor.net L)).1.1,
       (remaining url t (RegistrationAPIExecutor.net L)).1.2,
       RegistrationAPIExecutor.trace L
         ++ ((λ ev, (0, ev)) <$> (remaining url t (RegistrationAPIExecutor.net L)).2))
      = target.

End Remaining.

(** The requests in a trace, in order: where each was sent with what, and
    what each got. *)
Definition posts_sent (tr : list (nat * Event)) : list (string * Voter.Args) :=
  omap (λ p, match p.2 with EvPost url a _ => Some (url, a) | _ => None end) tr.

Definition posts_got (tr : list (nat * Event)) : list Result :=
  omap (λ p, match p.2 with EvPost _ _ r => Some r | _ => None end) tr.

Section Serve.
Context `{RT : Runtime}.

(** The outside world serving the requests [calls] one after the other,
    from the state [w]: the outcomes, and the state it ends in. *)
Fixpoint serve (calls : list (string * Voter.Args)) (w : World)
  : list Result * World :=
  match calls with
  | [] => ([], w)
  | (url, a) :: calls' =>
      let '(r, w') := post url a w in
      let '(rs, w'') := serve calls' w' in
      (r :: rs, w'')
  end.

(** The trace of a loop started in the world [w0] tells what really
    happened: its requests, served in that order from [w0], got the outcomes
    it records and left the world the loop is in. *)
Definition faithful (w0 : World) (L : RegistrationAPIExecutor.Loop World) : Prop :=
  serve (posts_sent (RegistrationAPIExecutor.trace L)) w0
  = (posts_got (RegistrationAPIExecutor.trace L), RegistrationAPIExecutor.net L).

End Serve.

(** ** Scenarios *)

(** Two objects that differ in the birth month only. *)
Definition twins : RegistrationAPIExecutor.Heap :=
  RegistrationChecker.heap_of
    [Voter.mk "Al" "Li" (VInt 3) 1990 "48104";
     Voter.mk "Al" "Li" (VInt 4) 1990 "48104"].

(** A hash on strings, for the scenarios. *)
Definition length_hash (s : string) : Z := Z.of_nat (String.length s).



(** The value a request's form holds under the key [k]. *)
Fixpoint field (k : string) (a : Voter.Args) : Value :=
  match a with
  | [] => VNone
  | (k', v) :: a' => if String.eqb k k' then v else field k a'
  end.

Definition alice : Voter.t := Voter.mk "Alice" "Smith" VNone 1990 "48104".
Definition bob : Voter.t := Voter.mk "Bob" "Jones" (VInt 3) 1985 "48105".
Definition carol : Voter.t := Voter.mk "Carol" "Diaz" VNone 1972 "48201".

(** A service that refuses every request about Bob and answers the others;
    the event loop interleaves the tasks before the drain. *)
Definition picky : Runtime := {|
  World := nat;
  post _ a w :=
    (match field "FirstName" a with
     | VStr "Bob" => Raised "refused"
     | _ => Ok "Yes, you are registered!"
     end, S w);
  resume_order _ := [2; 0; 1; 1; 2; 0; 1; 7; 1];
  set_order := elements;
  set_order_perm s := Permutation_refl (elements s)
|}.

(** A service that finds every voter registered, application on record. *)
Definition welcoming : Runtime := {|
  World := nat;
  post _ _ w := (Ok "Yes, you are registered!", S w);
  resume_order _ := [];
  set_order := elements;
  set_order_perm s := Permutation_refl (elements s)
|}.

(** A service that finds every voter registered, application not on record. *)
Definition pending : Runtime := {|
  World := nat;
  post _ _ w :=
    (Ok "Yes, you are registered! Your clerk has not recorded receiving your AV Application.",
     S w);
  resume_order _ := [];
  set_order := elements;
  set_order_perm s := Permutation_refl (elements s)
|}.

(** Stores for the scenarios: the object [i] is the [i]-th of the list. *)
Definition bob_then_alice : RegistrationAPIExecutor.Heap :=
  RegistrationChecker.heap_of [bob; alice].
Definition carol_then_alice : RegistrationAPIExecutor.Heap :=
  RegistrationChecker.heap_of [carol; alice].

(** Input files for the scenarios: two header lines, the rows, a footer. *)
Definition nl : string := String RegistrationChecker.newline "".

Definition two_voters_file : string :=
  "first,last,year,zip" +:+ nl +:+ "-------------------" +:+ nl
  +:+ "Alice,Smith,1990,48104" +:+ nl +:+ "Bob,Jones,3,1985,48105" +:+ nl
  +:+ "2 rows" +:+ nl.

Definition bad_row_file : string :=
  "first,last,year,zip" +:+ nl +:+ "-------------------" +:+ nl
  +:+ "Alice,Smith,1990,48104" +:+ nl +:+ "Ann,Lee" +:+ nl
  +:+ "2 rows" +:+ nl.

Definition header_only_file : string :=
  "first,last,year,zip" +:+ nl +:+ "-------------------" +:+ nl
  +:+ "0 rows" +:+ nl.

(** The service of the end-to-end scenario: Alice is registered, with her
    application on record, under month 6; Bob is registered, his
    application not on record, under month 3; nobody else is found. *)
Definition scenario_service : Runtime := {|
  World := nat;
  post _ a w :=
    (match field "FirstName" a, field "NameBirthMonth" a with
     | VStr "Alice", VInt 6 => Ok "Yes, you are registered!"
     | VStr "Bob", VInt 3 =>
         Ok "Yes, you are registered! Your clerk has not recorded receiving your AV Application."
     | _, _ => Ok "No voter record matched your search criteria"
     end, S w);
  resume_order _ := [1; 0; 0; 1];
  set_order := elements;
  set_order_perm s := Permutation_refl (elements s)
|}.

(** * Theorems *)

(** ** Lists *)

Lemma fold_left_cons_eq {A B} (f : A → B → A) x l a :
  fold_left f (x :: l) a = fold_left f l (f a x).
Proof. reflexivity. Qed.

Lemma filter_sublist {A} (f : A → bool) (l : list A) : sublist (List.filter f l) l.
Proof.
  induction l as [|x l IH]; cbn; [constructor|].
  destruct (f x); by constructor.
Qed.

Lemma elem_of_filter_bool {A} (f : A → bool) (l : list A) x :
  x ∈ List.filter f l ↔ x ∈ l ∧ f x = true.
Proof. rewrite !list_elem_of_In. apply filter_In. Qed.

Section Sorting.
Context {A : Type} (key : A → Z).

Lemma insert_by_perm x l : insert_by key x l ≡ₚ x :: l.
Proof.
  induction l as [|y l IH]; cbn; [done|].
  destruct (key x <=? key y)%Z; [done|].
  rewrite IH. apply Permutation_swap.
Qed.

Lemma sort_by_perm l : sort_by key l ≡ₚ l.
Proof.
  induction l as [|x l IH]; cbn; [done|]. by rewrite insert_by_perm, IH.
Qed.

Lemma insert_by_sorted x l :
  StronglySorted (λ a b, (key a ≤ key b)%Z) l →
  StronglySorted (λ a b, (key a ≤ key b)%Z) (insert_by key x l).
Proof.
  induction 1 as [|y l Hl IH Hy]; cbn.
  - by repeat constructor.
  - destruct (key x <=? key y)%Z eqn:Hxy.
    + apply Z.leb_le in Hxy. constructor; [by constructor|].
      constructor; [done|]. eapply Forall_impl; [|exact Hy].
      intros z Hz. cbn in *. lia.
    + apply Z.leb_gt in Hxy. constructor; [done|].
      rewrite insert_by_perm. constructor; [lia|done].
Qed.

Lemma sort_by_sorted l : StronglySorted (λ a b, (key a ≤ key b)%Z) (sort_by key l).
Proof.
  induction l as [|x l IH]; cbn; [constructor|]. by apply insert_by_sorted.
Qed.

End Sorting.

(** ** Strings and numbers *)

Section Strings.

Lemma sep_free_cons sep c s :
  sep_free sep (String c s) = true ↔ Ascii.eqb c sep = false ∧ sep_free sep s = true.
Proof.
  unfold sep_free; simpl. rewrite andb_true_iff, negb_true_iff. done.
Qed.

Lemma split_sep_free sep s : sep_free sep s = true → split sep s = [s].
Proof.
  induction s as [|c s IH]; [done|].
  intros [Hc Hs]%sep_free_cons. simpl. by rewrite Hc, (IH Hs).
Qed.

Lemma split_app sep a b :
  sep_free sep a = true → split sep (a +:+ String sep b) = a :: split sep b.
Proof.
  induction a as [|c a IH].
  - intros _. simpl. by rewrite Ascii.eqb_refl.
  - intros [Hc Ha]%sep_free_cons. simpl. by rewrite Hc, (IH Ha).
Qed.

Lemma split_app_join sep a b :
  sep_free sep a = true →
  split sep (a +:+ String sep "" +:+ b) = a :: split sep b.
Proof. exact (split_app sep a b). Qed.

Lemma split_fields sep s : Forall (λ f, sep_free sep f = true) (split sep s).
Proof.
  induction s as [|c s IH]; simpl.
  - by repeat constructor.
  - destruct (Ascii.eqb c sep) eqn:Hc.
    + by constructor.
    + destruct (split sep s) as [|f fs].
      * constructor; [|done]. by apply sep_free_cons.
      * inversion IH; subst. constructor; [|done]. by apply sep_free_cons.
Qed.

Lemma all_chars_impl (P Q : ascii → bool) s :
  (∀ c, P c = true → Q c = true) → all_chars P s = true → all_chars Q s = true.
Proof.
  intros HPQ. induction s as [|c s IH]; simpl; [done|].
  intros [Hc Hs]%andb_prop. by rewrite (HPQ c Hc), (IH Hs).
Qed.

Lemma lstrip_id sp s :
  all_chars (λ c, negb (sp c)) s = true → lstrip_with sp s = s.
Proof.
  destruct s as [|c s]; simpl; [done|].
  intros [Hc _]%andb_prop. apply negb_true_iff in Hc. by rewrite Hc.
Qed.

Lemma rstrip_id sp s :
  all_chars (λ c, negb (sp c)) s = true → rstrip_with sp s = s.
Proof.
  induction s as [|c s IH]; simpl; [done|].
  intros [Hc Hs]%andb_prop. apply negb_true_iff in Hc.
  rewrite (IH Hs), Hc. by destruct s.
Qed.

Lemma strip_id sp s :
  all_chars (λ c, negb (sp c)) s = true → strip_with sp s = s.
Proof.
  intros H. unfold strip_with. by rewrite (lstrip_id _ _ H), (rstrip_id _ _ H).
Qed.

Lemma digit_or_minus_no_space c : digit_or_minus c = true → negb (is_space c) = true.
Proof. by destruct c as [[] [] [] [] [] [] [] []]. Qed.

Lemma digit_or_minus_no_comma c :
  digit_or_minus c = true → negb (Ascii.eqb c ","%char) = true.
Proof. by destruct c as [[] [] [] [] [] [] [] []]. Qed.

Lemma uint_chars d : all_chars is_digit (NilEmpty.string_of_uint d) = true.
Proof. induction d; simpl; auto. Qed.

Lemma uint_nonnil d :
  d ≠ Decimal.Nil → NilZero.string_of_uint d = NilEmpty.string_of_uint d.
Proof. by destruct d. Qed.

Lemma digits_uint b d :
  b = true ∨ d ≠ Decimal.Nil → digits b (NilEmpty.string_of_uint d) = Some d.
Proof.
  revert b. induction d; intros b Hb;
    try (cbn; rewrite IHd by auto; reflexivity).
  destruct Hb as [->|]; done.
Qed.

Lemma py_str_chars z : all_chars digit_or_minus (py_str z) = true.
Proof.
  assert (Hd : ∀ d, all_chars digit_or_minus (NilZero.string_of_uint d) = true).
  { intros d. assert (d = Decimal.Nil ∨ d ≠ Decimal.Nil) as [->|Hd]
      by (destruct d; auto); [done|].
    rewrite uint_nonnil by done.
    eapply all_chars_impl, uint_chars. intros c Hc. unfold digit_or_minus.
    by rewrite Hc. }
  unfold py_str. destruct z; simpl; [done|apply Hd|].
  change (digit_or_minus "-" && all_chars digit_or_minus
            (NilZero.string_of_uint (Pos.to_uint p)) = true).
  by rewrite Hd.
Qed.

Lemma py_str_nonempty z : py_str z ≠ "".
Proof.
  unfold py_str. destruct z; simpl; try done.
  rewrite uint_nonnil by apply Unsigned.to_uint_nonnil.
  pose proof (Unsigned.to_uint_nonnil p). by destruct (Pos.to_uint p).
Qed.

Lemma py_str_sep_free z : sep_free "," (py_str z) = true.
Proof.
  eapply all_chars_impl, py_str_chars. apply digit_or_minus_no_comma.
Qed.

(** [int(str(z)) == z]. *)
Lemma py_int_str z : py_int (py_str z) = Some z.
Proof.
  unfold py_int. rewrite strip_id.
  2:{ eapply all_chars_impl, py_str_chars. apply digit_or_minus_no_space. }
  unfold py_str. destruct z as [|p|p]; [done| |].
  - pose proof (of_to (Z.pos p)) as Hz. unfold Z.to_int in Hz.
    cbn [Z.to_int NilZero.string_of_int].
    pose proof (Unsigned.to_uint_nonnil p) as Hnil.
    rewrite uint_nonnil by done.
    destruct (Pos.to_uint p) as [|d|d|d|d|d|d|d|d|d|d] eqn:Hd; [done|..];
      cbn -[Z.of_int]; rewrite digits_uint by auto; by rewrite <- Hz.
  - pose proof (of_to (Z.neg p)) as Hz. unfold Z.to_int in Hz.
    pose proof (Unsigned.to_uint_nonnil p) as Hnil.
    cbn -[Z.of_int NilZero.string_of_uint].
    rewrite uint_nonnil by done.
    rewrite digits_uint by auto. by rewrite <- Hz.
Qed.

End Strings.

(** ** Voter *)

Section VoterFacts.

Lemma split_record f l m y z :
  sep_free "," f = true → sep_free "," l = true → sep_free "," m = true →
  sep_free "," y = true → sep_free "," z = true →
  split "," (record_of f l m y z) = [f; l; m; y; z].
Proof.
  intros Hf Hl Hm Hy Hz. unfold record_of.
  rewrite !split_app_join by done. by rewrite split_sep_free.
Qed.

Lemma str_record v :
  Voter.__str__ v =
  record_of (Voter.first v) (Voter.last v)
    (format (if truthy (Voter.birth_month v) then Voter.birth_month v
             else VStr "Unknown"))
    (py_str (Voter.birth_year v)) (Voter.zip v).
Proof. reflexivity. Qed.

Lemma py_str_not_unknown z : String.eqb (py_str z) "Unknown" = false.
Proof.
  apply String.eqb_neq. intros Heq. pose proof (py_str_chars z) as H.
  rewrite Heq in H. discriminate.
Qed.

Lemma convert_ok f l m y z v :
  Voter.convert f l m y z = inr v →
  (m = VNone ∨ ∃ s, m = VStr s) →
  Voter.first v = f ∧ Voter.last v = l ∧ Voter.zip v = z ∧
  (Voter.birth_month v = VNone ∨ Voter.birth_month v = VStr "" ∨
   ∃ month, Voter.birth_month v = VInt month).
Proof.
  unfold Voter.convert, bind, int_, ret, raise.
  destruct (py_int y); [|done].
  intros Hv [->|[s ->]]; simpl in Hv.
  - inversion Hv; simpl; repeat split; eauto.
  - destruct (String.eqb s "") eqn:Hs; simpl in Hv.
    + apply String.eqb_eq in Hs as ->. inversion Hv; simpl; repeat split; eauto.
    + destruct (py_int s); [|done]. inversion Hv; simpl; repeat split; eauto.
Qed.

Lemma init_well_formed record v : Voter.__init__ record = inr v → well_formed v.
Proof.
  unfold Voter.__init__. pose proof (split_fields "," record) as Hfs.
  destruct (split "," record) as [|f [|l [|a [|b [|c [|? ?]]]]]]; try done.
  - rewrite !Forall_cons_iff in Hfs. destruct Hfs as (? & ? & ? & ? & _).
    intros (E1 & E2 & E3 & ?)%convert_ok; [|auto].
    unfold well_formed. rewrite E1, E2, E3. simpl in *. by repeat split.
  - rewrite !Forall_cons_iff in Hfs. destruct Hfs as (? & ? & ? & ? & ? & _).
    intros (E1 & E2 & E3 & ?)%convert_ok.
    + unfold well_formed. rewrite E1, E2, E3. simpl in *. by repeat split.
    + destruct (String.eqb a "Unknown"); eauto.
Qed.

Lemma entry_well_formed v : entry v → well_formed v.
Proof.
  induction 1 as [record v Hv|v month _ IH].
  - by eapply init_well_formed.
  - destruct IH as (? & ? & ? & _). repeat split; simpl; eauto.
Qed.

End VoterFacts.

(** C9. For every constructed entry [v], parsing the serialization of [v]
    succeeds and serializing the result gives the serialization of [v] again
    (in particular when the birth month is resolved); the parsed entry has the
    same first name, last name, birth year and zip, and the same birth month
    when that is resolved and an absent one otherwise; and an entry whose
    birth month is absent serializes it as the literal [Unknown]. *)
Theorem serialize_parse_serialize v :
  entry v →
  ∃ v', Voter.__init__ (Voter.__str__ v) = inr v'
    ∧ Voter.__str__ v' = Voter.__str__ v
    ∧ same_identity v' v
    ∧ Voter.birth_month v' =
        (if truthy (Voter.birth_month v) then Voter.birth_month v else VNone)
    ∧ (truthy (Voter.birth_month v) = false →
       Voter.__str__ v =
       record_of (Voter.first v) (Voter.last v) "Unknown"
         (py_str (Voter.birth_year v)) (Voter.zip v)).
Proof.
  intros (Hf & Hl & Hz & Hm)%entry_well_formed.
  destruct v as [f l m y z]; simpl in *.
  assert (Hparse : ∀ ms, sep_free "," ms = true →
    Voter.__init__ (record_of f l ms (py_str y) z) =
    Voter.convert f l (if String.eqb ms "Unknown" then VNone else VStr ms)
      (py_str y) z).
  { intros ms Hms. unfold Voter.__init__.
    by rewrite split_record by auto using py_str_sep_free. }
  assert (Hyear : ∀ mv, Voter.convert f l mv (py_str y) z =
    if truthy mv
    then bind (int_ mv) (λ month, ret (Voter.mk f l (VInt month) y z))
    else ret (Voter.mk f l mv y z)).
  { intros mv. unfold Voter.convert, int_ at 1. by rewrite py_int_str. }
  assert (Hunknown : Voter.__init__ (record_of f l "Unknown" (py_str y) z)
                     = inr (Voter.mk f l VNone y z)).
  { rewrite Hparse by done. by rewrite Hyear. }
  rewrite str_record; simpl.
  destruct Hm as [->|[->|[month ->]]]; simpl.
  - eexists. by rewrite Hunknown.
  - eexists. by rewrite Hunknown.
  - destruct (month =? 0)%Z eqn:Hmonth; simpl.
    + eexists. by rewrite Hunknown.
    + exists (Voter.mk f l (VInt month) y z).
      rewrite Hparse by apply py_str_sep_free.
      rewrite py_str_not_unknown, Hyear. simpl.
      pose proof (py_str_nonempty month) as Hne%String.eqb_neq.
      rewrite Hne. simpl. unfold int_. rewrite py_int_str. simpl.
      rewrite str_record. simpl. rewrite Hmonth. done.
Qed.

Lemma serialize_parse_serialize_witness :
  ∃ v', Voter.__init__ "Bob,Jones,3,1985,48105" = inr v'
    ∧ Voter.__str__ v' = "Bob,Jones,3,1985,48105"
    ∧ same_identity v' (Voter.mk "Bob" "Jones" (VInt 3) 1985 "48105")
    ∧ Voter.birth_month v' = VInt 3
    ∧ (true = false →
       "Bob,Jones,3,1985,48105" = record_of "Bob" "Jones" "Unknown" "1985" "48105").
Proof.
  apply (serialize_parse_serialize (Voter.mk "Bob" "Jones" (VInt 3) 1985 "48105")).
  apply (entry_init "Bob,Jones,3,1985,48105"). reflexivity.
Defined.

(** C10, as the code has it. The constructor checks no range of the birth
    month: for every record of five fields whose third and fourth fields are
    strings that [int()] accepts, construction succeeds and stores the
    month's value as it is, whatever it is; when that value is 0 the entry
    serializes its month as the literal [Unknown]. *)
Theorem init_checks_no_month_range record f l m y z month year :
  split "," record = [f; l; m; y; z] →
  py_int m = Some month →
  py_int y = Some year →
  Voter.__init__ record = inr (Voter.mk f l (VInt month) year z)
  ∧ (month = 0%Z →
     Voter.__str__ (Voter.mk f l (VInt month) year z) =
     record_of f l "Unknown" (py_str year) z).
Proof.
  intros Hsplit Hm Hy. split.
  - unfold Voter.__init__. rewrite Hsplit.
    assert (String.eqb m "Unknown" = false) as ->.
    { apply String.eqb_neq. intros ->. discriminate. }
    assert (String.eqb m "" = false) as Hne.
    { apply String.eqb_neq. intros ->. discriminate. }
    unfold Voter.convert, int_, truthy. by rewrite Hy, Hne, Hm.
  - intros ->. by rewrite str_record.
Qed.

Lemma init_checks_no_month_range_witness :
  Voter.__init__ "Bob,Jones,0,1985,48105"
    = inr (Voter.mk "Bob" "Jones" (VInt 0) 1985 "48105")
  ∧ (0%Z = 0%Z →
     Voter.__str__ (Voter.mk "Bob" "Jones" (VInt 0) 1985 "48105") =
     record_of "Bob" "Jones" "Unknown" (py_str 1985) "48105").
Proof.
  apply (init_checks_no_month_range
           "Bob,Jones,0,1985,48105" "Bob" "Jones" "0" "1985" "48105");
    reflexivity.
Defined.

(** C10, as stated, fails: a record of five fields whose third field is
    numeric is refused when its fourth field is not. *)
Lemma init_refuses_bad_year :
  split "," "Ann,Lee,13,abcd,48104" = ["Ann"; "Lee"; "13"; "abcd"; "48104"]
  ∧ py_int "13" = Some 13%Z
  ∧ Voter.__init__ "Ann,Lee,13,abcd,48104"
    = inl (ValueError "invalid literal for int() with base 10").
Proof. by vm_compute. Qed.

(** Months outside 1..12 are stored as they are. *)
Example init_month_13 :
  Voter.__init__ "Ann,Lee,13,1970,48104" = inr (Voter.mk "Ann" "Lee" (VInt 13) 1970 "48104")
  ∧ Voter.__init__ "Ann,Lee,-2,1970,48104" = inr (Voter.mk "Ann" "Lee" (VInt (-2)) 1970 "48104").
Proof. by vm_compute. Qed.

(** C4, as the code has it. Entries that agree on first name, last name,
    birth year and zip hash alike, whatever their birth months; the class
    defines no comparison, so two entries compare equal exactly when they are
    the same object, and entries that compare equal agree on those four
    fields. *)
Theorem hash_ignores_month_eq_is_identity
    (py_hash : string → Z) (h : RegistrationAPIExecutor.Heap) (a b : Ref) :
  (same_identity (h a) (h b) →
   Voter.__hash__ py_hash (h a) = Voter.__hash__ py_hash (h b))
  ∧ (object_eq a b = true ↔ a = b)
  ∧ (object_eq a b = true → same_identity (h a) (h b)).
Proof.
  split; [|split].
  - intros (Hf & Hl & Hy & Hz). unfold Voter.__hash__. by rewrite Hf, Hl, Hy, Hz.
  - apply Nat.eqb_eq.
  - intros ->%Nat.eqb_eq. by repeat split.
Qed.

Lemma hash_ignores_month_eq_is_identity_witness :
  Voter.__hash__ length_hash (twins 0) = Voter.__hash__ length_hash (twins 1).
Proof.
  apply (hash_ignores_month_eq_is_identity length_hash twins 0 1).
  by repeat split.
Defined.

(** C4, as stated, fails: two entries that differ in the birth month only
    hash alike and do not compare equal. *)
Lemma twins_not_equal :
  same_identity (twins 0) (twins 1)
  ∧ Voter.birth_month (twins 0) ≠ Voter.birth_month (twins 1)
  ∧ Voter.__hash__ length_hash (twins 0) = Voter.__hash__ length_hash (twins 1)
  ∧ object_eq 0 1 = false.
Proof. by repeat split. Qed.

(** ** _api_call *)

Section ApiCall.
Context `{RT : Runtime}.
Import RegistrationAPIExecutor.



End ApiCall.



(** ** api_multi_call *)

Section ApiMultiCall.
Context `{RT : Runtime} (url : string).
Import RegistrationAPIExecutor.

Implicit Types (L : Loop World) (t : Task) (i j : nat).


Lemma filter_tag_same i (evs : list Event) :
  List.filter (λ p : nat * Event, p.1 =? i) ((λ ev, (i, ev)) <$> evs)
  = (λ ev, (i, ev)) <$> evs.
Proof.
  induction evs as [|ev evs IH]; csimpl; [done|].
  by rewrite Nat.eqb_refl, IH.
Qed.

Lemma filter_tag_other i j (evs : list Event) :
  j ≠ i →
  List.filter (λ p : nat * Event, p.1 =? i) ((λ ev, (j, ev)) <$> evs) = [].
Proof.
  intros Hji%Nat.eqb_neq. induction evs as [|ev evs IH]; csimpl; [done|].
  by rewrite Hji.
Qed.

Lemma post_events_app i tr j evs :
  post_events i (tr ++ ((λ ev, (j, ev)) <$> evs)) =
  post_events i tr ++ (if decide (j = i) then List.filter is_post evs else []).
Proof.
  unfold post_events. rewrite List.filter_app, fmap_app, List.filter_app.
  f_equal. case_decide as Hji.
  - subst j. rewrite filter_tag_same, <- list_fmap_compose.
    f_equal. apply list_fmap_id.
  - by rewrite filter_tag_other.
Qed.

(** Resuming a task touches no other task. *)
Lemma resume_task_other i j L :
  i ≠ j → tasks (resume_task url i L) !! j = tasks L !! j.
Proof.
  intros Hij. unfold resume_task.
  destruct (tasks L !! i) as [t|]; [|done].
  destruct (resume url t (sem L) (net L)) as [[[t' free] w] evs]; simpl.
  by rewrite list_lookup_insert_ne.
Qed.

Lemma resume_task_length i L :
  length (tasks (resume_task url i L)) = length (tasks L).
Proof.
  unfold resume_task. destruct (tasks L !! i) as [t|]; [|done].
  destruct (resume url t (sem L) (net L)) as [[[t' free] w] evs]; simpl.
  by rewrite length_insert.
Qed.

(** The resumed task, when there is one. *)
Lemma resume_task_self i L t :
  tasks L !! i = Some t →
  ∃ t' free w evs,
    resume url t (sem L) (net L) = (t', free, w, evs)
    ∧ resume_task url i L
      = mkLoop (<[i := t']> (tasks L)) free w (trace L ++ ((λ ev, (i, ev)) <$> evs))
    ∧ tasks (resume_task url i L) !! i = Some t'.
Proof.
  intros Ht. unfold resume_task. rewrite Ht.
  destruct (resume url t (sem L) (net L)) as [[[t' free] w] evs].
  eexists _, _, _, _. split; [done|]. split; [done|]. simpl.
  apply list_lookup_insert_eq. by eapply lookup_lt_Some.
Qed.

Lemma resume_task_none i L : tasks L !! i = None → resume_task url i L = L.
Proof. intros Ht. unfold resume_task. by rewrite Ht. Qed.

Lemma task_ok_ext arguments tr tr' i t :
  post_events i tr' = post_events i tr →
  task_ok url arguments tr i t → task_ok url arguments tr' i t.
Proof.
  intros Heq (a & errs & Ha & Ht). exists a, errs. split; [done|].
  destruct t as [todo a'|n todo a'|[text|]]; by rewrite Heq.
Qed.

Lemma seq_cons_inv n todo k m :
  n :: todo = seq k m → n = k ∧ 0 < m ∧ todo = seq (S k) (m - 1).
Proof.
  destruct m as [|m]; simpl; [done|]. intros [= -> ->].
  by rewrite Nat.sub_0_r; auto with lia.
Qed.

(** One resumption keeps a task in agreement with the effects. *)
Lemma resume_ok arguments tr i t free w t' free' w' evs :
  task_ok url arguments tr i t →
  resume url t free w = (t', free', w', evs) →
  task_ok url arguments (tr ++ ((λ ev, (i, ev)) <$> evs)) i t'.
Proof.
  intros (a & errs & Ha & Ht) Hres.
  destruct t as [[|n todo] a'|n todo a'|r]; simpl in Hres.
  - (* no attempt left *)
    injection Hres as <- <- <- <-. destruct Ht as (-> & Hle & Htodo & Hev).
    exists a, errs. split; [done|].
    rewrite post_events_app, decide_True by done. simpl. rewrite app_nil_r.
    split; [|done]. destruct (5 - length errs) eqn:E; [lia|done].
  - (* entering the semaphore *)
    destruct Ht as (-> & Hle & Htodo & Hev).
    apply seq_cons_inv in Htodo as (-> & Hlt & ->).
    destruct free as [|free]; injection Hres as <- <- <- <-;
      exists a, errs; (split; [done|]);
      rewrite post_events_app, decide_True by done; simpl; rewrite app_nil_r.
    + split; [done|]. split; [done|]. split; [|done].
      destruct (5 - length errs) as [|m] eqn:E; [lia|].
      simpl. by rewrite Nat.sub_0_r.
    + repeat split; try done; try lia. f_equal. lia.
  - (* the request completes *)
    destruct Ht as (-> & -> & Hlt & -> & Hev).
    destruct (post url a w) as [[text|e] w''];
      injection Hres as <- <- <- <-.
    + exists a, errs. split; [done|].
      rewrite post_events_app, decide_True by done. simpl.
      by rewrite Hev.
    + exists a, (errs ++ [e]). split; [done|].
      rewrite post_events_app, decide_True by done. simpl.
      rewrite length_app. simpl. split; [done|]. split; [lia|]. split.
      * f_equal; lia.
      * rewrite Hev. unfold failures. by rewrite fmap_app.
  - (* already returned *)
    injection Hres as <- <- <- <-. exists a, errs. split; [done|].
    rewrite post_events_app, decide_True by done. simpl.
    by rewrite app_nil_r.
Qed.

Lemma resume_task_ok arguments i L :
  loop_ok url arguments L → loop_ok url arguments (resume_task url i L).
Proof.
  intros [Hlen Hok]. split; [by rewrite resume_task_length|].
  destruct (tasks L !! i) as [t|] eqn:Ht.
  2:{ by rewrite resume_task_none. }
  destruct (resume_task_self i L t Ht) as (t' & free & w & evs & Hres & -> & Hi).
  simpl in *. intros j tj Hj.
  destruct (decide (i = j)) as [<-|Hij].
  - rewrite Hi in Hj. injection Hj as <-. eapply resume_ok; eauto.
  - rewrite list_lookup_insert_ne in Hj by done.
    eapply task_ok_ext; [|by apply Hok].
    rewrite post_events_app, decide_False by done. by rewrite app_nil_r.
Qed.

(** What one resumption does to the semaphore and to the distance from the
    return. *)
Lemma resume_gate t free w t' free' w' evs :
  resume url t free w = (t', free', w', evs) →
  in_flight t' ∨ 0 < free' ∨ (¬ in_flight t ∧ free' = free).
Proof.
  destruct t as [[|n todo] a|n todo a|r]; simpl.
  - intros [= <- <- <- <-]. auto.
  - destruct free; intros [= <- <- <- <-]; simpl; auto.
  - destruct (post url a w) as [[text|e] w'']; intros [= <- <- <- <-]; auto with lia.
  - intros [= <- <- <- <-]. auto.
Qed.

Lemma resume_steps t free w t' free' w' evs :
  resume url t free w = (t', free', w', evs) →
  steps_left t' ≤ steps_left t
  ∧ (0 < free ∨ in_flight t → steps_left t' ≤ steps_left t - 1).
Proof.
  destruct t as [[|n todo] a|n todo a|r]; simpl.
  - intros [= <- <- <- <-]. simpl. lia.
  - destruct free; intros [= <- <- <- <-]; simpl; lia.
  - destruct (post url a w) as [[text|e] w'']; intros [= <- <- <- <-]; simpl; lia.
  - intros [= <- <- <- <-]. simpl. lia.
Qed.

Lemma resume_in_flight t free w t' free' w' evs :
  resume url t free w = (t', free', w', evs) → in_flight t → ¬ in_flight t'.
Proof.
  destruct t as [[|n todo] a|n todo a|r]; simpl; try done.
  destruct (post url a w) as [[text|e] w'']; intros [= <- <- <- <-]; simpl; auto.
Qed.

Lemma resume_task_gate i L : gate_ok L → gate_ok (resume_task url i L).
Proof.
  intros Hgate. destruct (tasks L !! i) as [t|] eqn:Ht.
  2:{ by rewrite resume_task_none. }
  destruct (resume_task_self i L t Ht) as (t' & free & w & evs & Hres & -> & Hi).
  unfold gate_ok; simpl in *. intros Hall.
  destruct (resume_gate _ _ _ _ _ _ _ Hres) as [Hin|[Hpos|[Hnot ->]]]; [|done|].
  - by eapply Forall_lookup_1 in Hall.
  - apply Hgate, Forall_lookup_2. intros j tj Hj.
    destruct (decide (i = j)) as [<-|Hij]; [congruence|].
    eapply (Forall_lookup_1 (λ t, ¬ in_flight t)); [exact Hall|].
    by rewrite list_lookup_insert_ne.
Qed.

Lemma resume_task_bounded i L : bounded L → bounded (resume_task url i L).
Proof.
  intros Hb. destruct (tasks L !! i) as [t|] eqn:Ht.
  2:{ by rewrite resume_task_none. }
  destruct (resume_task_self i L t Ht) as (t' & free & w & evs & Hres & -> & Hi).
  unfold bounded in *; simpl. apply Forall_insert; [done|].
  destruct (resume_steps _ _ _ _ _ _ _ Hres) as [Hle _].
  eapply Forall_lookup_1 in Hb; [|done]. simpl in Hb. lia.
Qed.

(** Whatever every resumption keeps, [run] and [drain] keep. *)
Lemma run_preserves (P : Loop World → Prop) :
  (∀ i L, P L → P (resume_task url i L)) →
  ∀ order L, P L → P (run url order L).
Proof.
  intros Hstep order. unfold run.
  induction order as [|i order IH]; simpl; auto.
Qed.

Lemma iter_preserves (P : Loop World → Prop) i :
  (∀ L, P L → P (resume_task url i L)) →
  ∀ k L, P L → P (Nat.iter k (resume_task url i) L).
Proof. intros Hstep k L HL. induction k; simpl; auto. Qed.

Lemma settle_preserves (P : Loop World → Prop) i :
  (∀ L, P L → P (resume_task url i L)) → ∀ L, P L → P (settle url L i).
Proof.
  intros Hstep L HL. unfold settle. destruct (tasks L !! i) as [[]|]; auto.
Qed.

Lemma finish_preserves (P : Loop World → Prop) i :
  (∀ L, P L → P (resume_task url i L)) → ∀ L, P L → P (finish url L i).
Proof.
  intros Hstep L HL. unfold finish. apply (iter_preserves P i Hstep 11 L HL).
Qed.

Lemma fold_preserves (P : Loop World → Prop) (f : Loop World → nat → Loop World) :
  (∀ i L, P L → P (f L i)) → ∀ l L, P L → P (fold_left f l L).
Proof.
  intros Hf l. induction l as [|i l IH]; intros L HL; [done|].
  apply IH, Hf, HL.
Qed.

Lemma drain_preserves (P : Loop World → Prop) :
  (∀ i L, P L → P (resume_task url i L)) →
  ∀ L, P L → P (drain url L).
Proof.
  intros Hstep L HL. unfold drain.
  apply fold_preserves; [intros; apply finish_preserves; auto|].
  apply fold_preserves; [intros; apply settle_preserves; auto|]. done.
Qed.

Lemma fold_finish_length l L :
  length (tasks (fold_left (finish url) l L)) = length (tasks L).
Proof.
  apply (fold_preserves (λ L', length (tasks L') = length (tasks L))); [|done].
  intros i L' <-. apply (finish_preserves (λ L0, length (tasks L0) = length (tasks L')));
    [|done].
  intros L0 <-. apply resume_task_length.
Qed.

Lemma fold_settle_length l L :
  length (tasks (fold_left (settle url) l L)) = length (tasks L).
Proof.
  apply (fold_preserves (λ L', length (tasks L') = length (tasks L))); [|done].
  intros i L' <-. apply (settle_preserves (λ L0, length (tasks L0) = length (tasks L')));
    [|done].
  intros L0 <-. apply resume_task_length.
Qed.

(** Settling completes requests under way and starts none. *)
Lemma settle_in_flight L j i t :
  tasks (settle url L j) !! i = Some t → in_flight t →
  i ≠ j ∧ tasks L !! i = Some t.
Proof.
  unfold settle. intros Hi Hin.
  destruct (tasks L !! j) as [tj|] eqn:Hj.
  2:{ split; [congruence|done]. }
  destruct tj as [todo a|n todo a|r];
    try (split; [intros ->; rewrite Hj in Hi; by injection Hi as <-|done]).
  destruct (decide (i = j)) as [->|Hij].
  - destruct (resume_task_self j L _ Hj) as (t' & free & w & evs & Hres & _ & Hj').
    rewrite Hj' in Hi. injection Hi as ->.
    by eapply resume_in_flight in Hres.
  - by rewrite resume_task_other in Hi.
Qed.

Lemma fold_settle_in_flight l L i t :
  tasks (fold_left (settle url) l L) !! i = Some t → in_flight t →
  (i ∉ l) ∧ tasks L !! i = Some t.
Proof.
  revert L. induction l as [|j l IH]; cbn [fold_left]; intros L Hi Hin.
  - split; [apply not_elem_of_nil|done].
  - destruct (IH _ Hi Hin) as [Hl Hj].
    destruct (settle_in_flight _ _ _ _ Hj Hin) as [Hij HL].
    split; [|done]. by intros [->|]%elem_of_cons.
Qed.

(** Driving one task while no other holds a slot. *)
Lemma iter_resume_alone i k L t :
  gate_ok L →
  (∀ j tj, j ≠ i → tasks L !! j = Some tj → ¬ in_flight tj) →
  tasks L !! i = Some t →
  gate_ok (Nat.iter k (resume_task url i) L)
  ∧ (∀ j, j ≠ i → tasks (Nat.iter k (resume_task url i) L) !! j = tasks L !! j)
  ∧ ∃ t', tasks (Nat.iter k (resume_task url i) L) !! i = Some t'
          ∧ steps_left t' ≤ steps_left t - k.
Proof.
  intros Hgate Hothers Ht. induction k as [|k IH]; [|rewrite Nat.iter_succ].
  - split; [done|]. split; [done|]. exists t. split; [done|lia].
  - destruct IH as (Hgate' & Hsame & t1 & Ht1 & Hsteps).
    set (L1 := Nat.iter k (resume_task url i) L) in *.
    split; [by apply resume_task_gate|].
    split. { intros j Hj. rewrite resume_task_other by done. auto. }
    destruct (resume_task_self i L1 t1 Ht1)
      as (t' & free & w & evs & Hres & _ & Hi).
    exists t'. split; [done|].
    destruct (resume_steps _ _ _ _ _ _ _ Hres) as [_ Hdec].
    assert (0 < sem L1 ∨ in_flight t1) as Hfree.
    { destruct t1 as [todo a|n todo a|r]; cbn [in_flight]; auto; left;
        apply Hgate'; apply Forall_lookup_2; intros j tj Hj;
        (destruct (decide (j = i)) as [->|Hji];
         [rewrite Ht1 in Hj; injection Hj as <-; cbn; tauto|]);
        rewrite Hsame in Hj by done; eauto. }
    specialize (Hdec Hfree). lia.
Qed.

Lemma finish_alone i L :
  gate_ok L → bounded L → Forall (λ t, ¬ in_flight t) (tasks L) →
  gate_ok (finish url L i) ∧ bounded (finish url L i)
  ∧ (∀ j, j ≠ i → tasks (finish url L i) !! j = tasks L !! j)
  ∧ (∀ t', tasks (finish url L i) !! i = Some t' → finished t').
Proof.
  intros Hgate Hb Hnone.
  split. { apply finish_preserves; auto using resume_task_gate. }
  split. { apply finish_preserves; auto using resume_task_bounded. }
  unfold finish.
  destruct (tasks L !! i) as [t|] eqn:Ht.
  - destruct (iter_resume_alone i 11 L t Hgate) as (_ & Hsame & t' & Ht' & Hsteps);
      [|done|].
    { intros j tj _ Hj. by eapply (Forall_lookup_1 (λ t, ¬ in_flight t)). }
    split; [done|]. intros t'' Ht''. rewrite Ht' in Ht''. injection Ht'' as <-.
    eapply Forall_lookup_1 in Hb; [|done]. cbn beta in Hb.
    destruct t' as [todo a|n todo a|r]; cbn [steps_left finished] in *;
      [lia|lia|done].
  - assert (Hid : ∀ k, Nat.iter k (resume_task url i) L = L).
    { induction k as [|k IH]; [done|]. rewrite Nat.iter_succ, IH.
      by apply resume_task_none. }
    rewrite Hid. split; [done|]. intros t'. by rewrite Ht.
Qed.

Lemma fold_finish l L :
  gate_ok L → bounded L → Forall (λ t, ¬ in_flight t) (tasks L) →
  ∀ j t, tasks (fold_left (finish url) l L) !! j = Some t →
    (j ∈ l ∨ ∃ t0, tasks L !! j = Some t0 ∧ finished t0) → finished t.
Proof.
  revert L. induction l as [|i l IH];
    intros L Hgate Hb Hnone j t Hj Hwhy.
  - destruct Hwhy as [[]%elem_of_nil|(t0 & Ht0 & Hfin)].
    change (tasks L !! j = Some t) in Hj. congruence.
  - destruct (finish_alone i L Hgate Hb Hnone) as (Hgate' & Hb' & Hsame & Hfin).
    rewrite fold_left_cons_eq in Hj.
    set (L1 := finish url L i) in *. clearbody L1.
    assert (Hnone' : Forall (λ t, ¬ in_flight t) (tasks L1)).
    { apply Forall_lookup_2. intros k tk Hk.
      destruct (decide (k = i)) as [->|Hki].
      - apply Hfin in Hk. destruct tk; cbn in *; tauto.
      - rewrite Hsame in Hk by done.
        by eapply (Forall_lookup_1 (λ t, ¬ in_flight t)). }
    apply (IH _ Hgate' Hb' Hnone' j t Hj).
    destruct (decide (j = i)) as [->|Hji].
    + destruct (tasks L1 !! i) as [ti|] eqn:Hi.
      * right. exists ti. split; [done|]. by apply Hfin.
      * exfalso. apply lookup_ge_None in Hi. apply lookup_lt_Some in Hj.
        rewrite fold_finish_length in Hj. lia.
    + destruct Hwhy as [[->|Hl]%elem_of_cons|(t0 & Ht0 & Hfin0)]; [done|by left|].
      right. exists t0. rewrite Hsame by done. done.
Qed.

(** When [drain] is done, every task has returned. *)
Lemma drain_finished L :
  gate_ok L → bounded L → Forall finished (tasks (drain url L)).
Proof.
  intros Hgate Hb. unfold drain.
  set (positions := seq 0 (length (tasks L))).
  set (L1 := fold_left (settle url) positions L).
  assert (Hnone : Forall (λ t, ¬ in_flight t) (tasks L1)).
  { apply Forall_lookup_2. intros i t Hi Hin.
    destruct (fold_settle_in_flight _ _ _ _ Hi Hin) as [Hnot _].
    apply Hnot, elem_of_seq. apply lookup_lt_Some in Hi.
    unfold L1 in Hi. rewrite fold_settle_length in Hi. lia. }
  assert (Hgate1 : gate_ok L1).
  { apply fold_preserves; [|done]. intros i L0 HL0.
    apply settle_preserves; auto using resume_task_gate. }
  assert (Hb1 : bounded L1).
  { apply fold_preserves; [|done]. intros i L0 HL0.
    apply settle_preserves; auto using resume_task_bounded. }
  apply Forall_lookup_2. intros j t Hj.
  apply (fold_finish positions L1 Hgate1 Hb1 Hnone j t Hj).
  left. apply elem_of_seq. apply lookup_lt_Some in Hj.
  rewrite fold_finish_length in Hj. unfold L1 in Hj.
  rewrite fold_settle_length in Hj. lia.
Qed.

Lemma interior_ok arguments (w : World) :
  loop_ok url arguments (interior url arguments w)
  ∧ Forall finished (tasks (interior url arguments w)).
Proof.
  unfold interior.
  set (L0 := mkLoop (Waiting (seq 0 5) <$> arguments) 50 w []).
  assert (Hok : loop_ok url arguments L0).
  { split; [subst L0; cbn; by rewrite length_fmap|]. intros i t Hi.
    subst L0; cbn in Hi.
    apply list_lookup_fmap_Some in Hi as (a & -> & Ha).
    exists a, []. split; [done|]. cbn. repeat split; try done. lia. }
  assert (Hgate : gate_ok L0) by (intros _; subst L0; cbn; lia).
  assert (Hb : bounded L0).
  { unfold bounded. subst L0; cbn. apply Forall_fmap, Forall_forall.
    intros a _. cbn. lia. }
  split.
  - apply drain_preserves; [intros; by apply resume_task_ok|].
    apply run_preserves; [intros; by apply resume_task_ok|done].
  - apply drain_finished.
    + apply run_preserves; [intros; by apply resume_task_gate|done].
    + apply run_preserves; [intros; by apply resume_task_bounded|done].
Qed.

End ApiMultiCall.

Section Faithful.
Context `{RT : Runtime} (url : string).
Import RegistrationAPIExecutor.

Lemma serve_app calls calls' (w : World) :
  serve (calls ++ calls') w
  = ((serve calls w).1 ++ (serve calls' (serve calls w).2).1,
     (serve calls' (serve calls w).2).2).
Proof.
  revert w. induction calls as [|[u a] calls IH]; intros w.
  - cbn. by destruct (serve calls' w).
  - cbn [app serve]. destruct (post u a w) as [r w1]. rewrite IH.
    by destruct (serve calls w1) as [rs w2].
Qed.

(** The effects of one resumption are what the world did meanwhile. *)
Lemma resume_serve i t free (w : World) t' free' w' evs :
  resume url t free w = (t', free', w', evs) →
  serve (posts_sent ((λ ev, (i, ev)) <$> evs)) w
  = (posts_got ((λ ev, (i, ev)) <$> evs), w').
Proof.
  destruct t as [[|n todo] a|n todo a|r]; cbn [resume].
  - by intros [= <- <- <- <-].
  - destruct free; by intros [= <- <- <- <-].
  - destruct (post url a w) as [[text|e] w''] eqn:Hpost;
      intros [= <- <- <- <-]; cbn; by rewrite Hpost.
  - by intros [= <- <- <- <-].
Qed.

Lemma resume_task_faithful w0 i (L : Loop World) :
  faithful w0 L → faithful w0 (resume_task url i L).
Proof.
  unfold faithful. intros HL. destruct (tasks L !! i) as [t|] eqn:Ht.
  2:{ by rewrite resume_task_none. }
  destruct (resume_task_self url i L t Ht) as (t' & free & w & evs & Hres & -> & _).
  cbn [trace net]. unfold posts_sent, posts_got in *.
  rewrite !omap_app, serve_app, HL. cbn [fst snd].
  pose proof (resume_serve i _ _ _ _ _ _ _ Hres) as Hs.
  unfold posts_sent, posts_got in Hs. by rewrite Hs.
Qed.

Lemma interior_faithful arguments (w : World) :
  faithful w (interior url arguments w).
Proof.
  unfold interior.
  apply drain_preserves; [intros; by apply resume_task_faithful|].
  apply run_preserves; [intros; by apply resume_task_faithful|]. done.
Qed.

End Faithful.

(** C6. For every list of request descriptors, whatever the order in which
    the event loop resumes the tasks, [api_multi_call] returns one result per
    descriptor, in the descriptors' order: the result at position [i] is the
    text of a request that the task at position [i] made for descriptor [i],
    after fewer than 5 failed ones, or it is [None], and it is [None]
    exactly when that task made 5 requests for descriptor [i] that all
    failed. The requests of the returned trace are the requests really
    sent: served by the outside world in that order, from the world the
    fan-out started in, they got the outcomes the trace records and left
    the world that is returned. *)
Theorem api_multi_call_aligned `{RT : Runtime} url arguments (w : World) :
  let out := RegistrationAPIExecutor.api_multi_call url arguments w in
  length out.1.1 = length arguments
  ∧ serve (posts_sent out.2) w = (posts_got out.2, out.1.2)
  ∧ ∀ i a, arguments !! i = Some a →
      (∃ r errs, out.1.1 !! i = Some r ∧
         match r with
         | Some text =>
             length errs < 5
             ∧ post_events i out.2 = failures url a errs ++ [EvPost url a (Ok text)]
         | None => length errs = 5 ∧ post_events i out.2 = failures url a errs
         end)
      ∧ (out.1.1 !! i = Some None ↔
         ∃ errs, length errs = 5 ∧ post_events i out.2 = failures url a errs).
Proof.
  destruct (interior_ok url arguments w) as [[Hlen Hok] Hfin].
  pose proof (interior_faithful url arguments w) as Hserve.
  unfold faithful in Hserve.
  unfold RegistrationAPIExecutor.api_multi_call; cbn [fst snd].
  set (L := RegistrationAPIExecutor.interior url arguments w) in *.
  split; [by rewrite length_fmap|]. split; [exact Hserve|].
  intros i a Ha.
  assert (Hspec : ∃ r errs,
    (RegistrationAPIExecutor.task_result <$> RegistrationAPIExecutor.tasks L) !! i
      = Some r ∧
    match r with
    | Some text =>
        length errs < 5
        ∧ post_events i (RegistrationAPIExecutor.trace L)
          = failures url a errs ++ [EvPost url a (Ok text)]
    | None => length errs = 5
        ∧ post_events i (RegistrationAPIExecutor.trace L) = failures url a errs
    end).
  { destruct (RegistrationAPIExecutor.tasks L !! i) as [t|] eqn:Ht.
    2:{ apply lookup_ge_None in Ht. apply lookup_lt_Some in Ha. lia. }
    pose proof (Forall_lookup_1 _ _ _ _ Hfin Ht) as Hft.
    destruct (Hok i t Ht) as (a' & errs & Ha' & Hshape).
    assert (a' = a) as -> by congruence.
    destruct t as [| |r]; try done.
    exists r, errs. rewrite list_lookup_fmap, Ht. split; [done|].
    by destruct r. }
  split; [done|].
  destruct Hspec as (r & errs & Hr & Hshape). rewrite Hr. split.
  - intros [= ->]. by exists errs.
  - intros (errs5 & Hlen5 & Hev). destruct r as [text|]; [|done].
    destruct Hshape as [_ Hev']. rewrite Hev in Hev'.
    apply (f_equal list.last) in Hev'. rewrite last_snoc in Hev'.
    unfold failures in Hev'. rewrite fmap_last in Hev'.
    destruct (list.last errs5); simplify_eq.
Qed.

(** The fan-out with one descriptor made to fail: [None] at its position,
    and seven requests received by the service (one, five and one). *)
Example fan_out_one_failing :
  let out := RegistrationAPIExecutor.api_multi_call (RT := picky) "u"
     [Voter.get_api_args alice 1; Voter.get_api_args bob 1;
      Voter.get_api_args carol 1] 0 in
  out.1.1 = [Some "Yes, you are registered!"; None; Some "Yes, you are registered!"]
  ∧ out.1.2 = 7
  ∧ length (posts_sent out.2) = 7.
Proof. by vm_compute. Qed.

(** The descriptor made to fail: [None] at position 1, after five failed
    requests for it, all of them really sent. *)
Lemma api_multi_call_aligned_witness :
  let out := RegistrationAPIExecutor.api_multi_call (RT := picky) "u"
     [Voter.get_api_args alice 1; Voter.get_api_args bob 1;
      Voter.get_api_args carol 1] 0 in
  out.1.1 !! 1 = Some None
  ∧ (∃ errs, length errs = 5
       ∧ post_events 1 out.2 = failures "u" (Voter.get_api_args bob 1) errs)
  ∧ serve (RT := picky) (posts_sent out.2) 0 = (posts_got out.2, out.1.2).
Proof.
  cbn zeta.
  pose proof (api_multi_call_aligned (RT := picky) "u"
     [Voter.get_api_args alice 1; Voter.get_api_args bob 1;
      Voter.get_api_args carol 1] 0) as H.
  cbn zeta in H. destruct H as (_ & Hserve & Hpos).
  destruct (Hpos 1 (Voter.get_api_args bob 1) eq_refl) as [_ Hiff].
  assert (Hnone :
    (RegistrationAPIExecutor.api_multi_call (RT := picky) "u"
       [Voter.get_api_args alice 1; Voter.get_api_args bob 1;
        Voter.get_api_args carol 1] 0).1.1 !! 1 = Some None)
    by (vm_compute; reflexivity).
  split; [exact Hnone|]. split; [exact (proj1 Hiff Hnone)|exact Hserve].
Defined.

(** ** get_voters_with_absentee_ballots *)

Section Search.
Context `{RT : Runtime}.
Import RegistrationAPIExecutor.

Implicit Types (st : State World) (h : Heap) (v : Ref) (month : Z).

Lemma round_unfold st month :
  round st month =
  let out := api_multi_call registration_url (requests st month) (world st) in
  let acc := fold_left (classify month) (classified st month)
               (heap st, registered_voters st, voters_with_ballots st) in
  mkState acc.1.1
    (List.filter (λ v, bool_decide (v ∉ acc.1.2)) (voters st))
    acc.1.2 acc.2 out.1.2
    (fanouts st ++ [mkFanout month (requests st month) out.1.1 out.2]).
Proof.
  unfold round, classified, responses_of.
  destruct (api_multi_call _ _ _) as [[responses w] tr]; simpl.
  by destruct (fold_left _ _ _) as [[h registered] with_ballots].
Qed.

(** With no descriptor the fan-out does nothing. *)
Lemma api_multi_call_nil url (w : World) : api_multi_call url [] w = ([], w, []).
Proof.
  unfold api_multi_call, interior, drain; simpl.
  set (L0 := mkLoop [] 50 w []).
  assert (run url (resume_order w) L0 = L0) as ->; [|done].
  unfold run. induction (resume_order w) as [|i order IH]; simpl; [done|].
  by rewrite resume_task_none.
Qed.

(** *** The classification loop *)

(** One step of the loop: what it may do to the sets and to the store. *)
Lemma classify_step month h reg bal v page :
  ∃ h' reg' bal',
    classify month (h, reg, bal) (v, page) = (h', reg', bal')
    ∧ reg ⊆ reg' ∧ bal ⊆ bal'
    ∧ (∀ u, u ∈ reg' → u ∈ reg ∨ u = v)
    ∧ (∀ u, u ∈ bal' → u ∈ bal
         ∨ (u = v ∧ u ∈ reg' ∧ Voter.birth_month (h' u) = VInt month))
    ∧ (∀ u, u ≠ v → h' u = h u)
    ∧ (∀ u, Voter.birth_month (h u) = VInt month →
            Voter.birth_month (h' u) = VInt month)
    ∧ (∀ u, same_identity (h' u) (h u))
    ∧ (∀ text, page = Some text → py_in registered_marker text = true →
         v ∈ reg'
         ∧ (py_in no_application_marker text = false →
            v ∈ bal' ∧ Voter.birth_month (h' v) = VInt month)
         ∧ (py_in no_application_marker text = true → h' = h ∧ bal' = bal)).
Proof.
  assert (Hmarker : ∀ text, py_in registered_marker text = true →
                            truthy (VStr text) = true).
  { by intros [|c text]. }
  assert (Hid : ∀ u, same_identity (h u) (h u)) by (by repeat split).
  unfold classify. destruct page as [text|].
  2:{ eexists _, _, _. split; [done|]. split_and!; auto; done. }
  destruct (py_in registered_marker text) eqn:Hreg.
  2:{ rewrite andb_false_r. eexists _, _, _. split; [done|].
      split_and!; auto; try done. intros ? [= <-]. congruence. }
  rewrite (Hmarker _ Hreg). cbn [andb].
  destruct (py_in no_application_marker text) eqn:Hav; cbn [negb];
    eexists _, _, _; (split; [done|]); split_and!; try set_solver;
    unfold Heap in *.
  - intros ? [= <-] _. rewrite Hav. split_and!; [set_solver|done|done].
  - intros u [->%elem_of_singleton|Hu]%elem_of_union; [right|by left].
    split_and!; [done|set_solver|by rewrite fn_lookup_insert].
  - intros u Hu. by rewrite fn_lookup_insert_ne.
  - intros u Hu. destruct (decide (v = u)) as [->|Hne].
    + by rewrite fn_lookup_insert.
    + by rewrite fn_lookup_insert_ne.
  - intros u. destruct (decide (v = u)) as [->|Hne].
    + rewrite fn_lookup_insert. by repeat split.
    + by rewrite fn_lookup_insert_ne.
  - intros ? [= <-] _. rewrite Hav. split_and!; [set_solver| |done].
    intros _. split; [set_solver|by rewrite fn_lookup_insert].
Qed.

Lemma same_identity_trans (a b c : Voter.t) :
  same_identity a b → same_identity b c → same_identity a c.
Proof.
  intros (? & ? & ? & ?) (? & ? & ? & ?). repeat split; congruence.
Qed.

(** The whole loop over the pairs of a round. *)
Lemma classify_fold month pairs h reg bal :
  ∃ h' reg' bal',
    fold_left (classify month) pairs (h, reg, bal) = (h', reg', bal')
    ∧ reg ⊆ reg' ∧ bal ⊆ bal'
    ∧ (∀ u, u ∈ reg' → u ∈ reg ∨ u ∈ pairs.*1)
    ∧ (∀ u, u ∈ bal' → u ∈ bal
         ∨ (u ∈ pairs.*1 ∧ u ∈ reg' ∧ Voter.birth_month (h' u) = VInt month))
    ∧ (∀ u, u ∉ pairs.*1 → h' u = h u)
    ∧ (∀ u, Voter.birth_month (h u) = VInt month →
            Voter.birth_month (h' u) = VInt month)
    ∧ (∀ u, same_identity (h' u) (h u))
    ∧ (∀ v text, (v, Some text) ∈ pairs →
         py_in registered_marker text = true →
         v ∈ reg'
         ∧ (py_in no_application_marker text = false →
            v ∈ bal' ∧ Voter.birth_month (h' v) = VInt month)).
Proof.
  revert h reg bal. induction pairs as [|[v page] pairs IH]; intros h reg bal.
  - exists h, reg, bal. split; [done|].
    split_and!; auto; try done.
    intros v text []%elem_of_nil.
  - destruct (classify_step month h reg bal v page)
      as (h1 & reg1 & bal1 & Hstep & Hreg1 & Hbal1 & Hnew1 & Hbnew1 & Hframe1
          & Hstable1 & Hid1 & Heff1).
    destruct (IH h1 reg1 bal1)
      as (h' & reg' & bal' & Hfold & Hreg & Hbal & Hnew & Hbnew & Hframe
          & Hstable & Hid & Heff).
    exists h', reg', bal'. rewrite fold_left_cons_eq, Hstep.
    split; [done|]. rewrite fmap_cons. cbn [fst].
    split_and!.
    + by trans reg1.
    + by trans bal1.
    + intros u [Hu|Hu]%Hnew.
      * destruct (Hnew1 u Hu) as [?| ->]; [by left|].
        right. apply elem_of_cons. by left.
      * right. apply elem_of_cons. by right.
    + intros u [Hu|(Hin & Hr & Hm)]%Hbnew.
      * destruct (Hbnew1 u Hu) as [?|(-> & Hr & Hm)]; [by left|right].
        split_and!; [apply elem_of_cons; by left|by apply Hreg|by apply Hstable].
      * right. split_and!; [apply elem_of_cons; by right|done|done].
    + intros u [Hne Hu]%not_elem_of_cons. rewrite Hframe by done.
      by apply Hframe1.
    + auto.
    + intros u. eapply same_identity_trans; eauto.
    + intros v0 text [[= -> <-]|Hin]%elem_of_cons Hmark; [|by eapply Heff].
      destruct (Heff1 text eq_refl Hmark) as (Hr & Hno & _).
      split; [by apply Hreg|]. intros Hav. destruct (Hno Hav) as [Hb Hm].
      split; [by apply Hbal|by apply Hstable].
Qed.

(** The pairs of a round couple voters of the working list only. *)
Lemma classified_voters st month v :
  v ∈ (classified st month).*1 → v ∈ voters st.
Proof.
  unfold classified. intros (p & -> & Hp)%list_elem_of_fmap.
  destruct p as [u page]. apply elem_of_zip_l in Hp. done.
Qed.

(** A round, field by field. *)
Lemma round_spec st month :
  ∃ h' reg' bal',
    fold_left (classify month) (classified st month)
      (heap st, registered_voters st, voters_with_ballots st) = (h', reg', bal')
    ∧ heap (round st month) = h'
    ∧ registered_voters (round st month) = reg'
    ∧ voters_with_ballots (round st month) = bal'
    ∧ voters (round st month)
      = List.filter (λ v, bool_decide (v ∉ reg')) (voters st).
Proof.
  rewrite round_unfold. cbn zeta.
  destruct (fold_left _ _ _) as [[h' reg'] bal'] eqn:Hfold.
  by exists h', reg', bal'.
Qed.

Lemma after_rounds_S n h vs (w : World) :
  n < 12 →
  after_rounds (S n) h vs w = round (after_rounds n h vs w) (Z.of_nat (S n)).
Proof.
  intros Hn. unfold after_rounds.
  assert (months !! n = Some (Z.of_nat (S n))) as Hm.
  { unfold months. rewrite list_lookup_fmap, lookup_seq_lt by done. done. }
  by rewrite (take_S_r _ _ _ Hm), fold_left_app.
Qed.

Lemma after_rounds_ge n h vs (w : World) :
  12 ≤ n → after_rounds n h vs w = search h vs w.
Proof.
  intros Hn. unfold after_rounds, search. by rewrite take_ge.
Qed.

(** *** Rounds *)

Lemma round_inv st month : search_inv st → search_inv (round st month).
Proof.
  intros [Hactive Hsub]. unfold search_inv.
  destruct (round_spec st month)
    as (h' & reg' & bal' & Hfold & _ & -> & -> & ->).
  destruct (classify_fold month (classified st month) (heap st)
              (registered_voters st) (voters_with_ballots st))
    as (h1 & reg1 & bal1 & Hfold1 & Hreg & Hbal & Hnew & Hbnew & _).
  rewrite Hfold in Hfold1. injection Hfold1 as <- <- <-. split.
  - intros v [_ Hv%bool_decide_eq_true]%elem_of_filter_bool. done.
  - intros v [Hv|(_ & Hv & _)]%Hbnew; [|done]. by apply Hreg, Hsub.
Qed.

Lemma after_rounds_inv n h vs (w : World) : search_inv (after_rounds n h vs w).
Proof.
  induction n as [|n IH].
  - split; [intros v _|]; cbn; set_solver.
  - destruct (decide (n < 12)) as [Hn|Hn].
    + rewrite after_rounds_S by done. by apply round_inv.
    + rewrite after_rounds_ge in * by lia. done.
Qed.

Lemma round_fanouts st month :
  fo_month <$> fanouts (round st month) = (fo_month <$> fanouts st) ++ [month].
Proof. rewrite round_unfold. cbn. by rewrite fmap_app. Qed.

Lemma rounds_fanouts ms st :
  fo_month <$> fanouts (fold_left round ms st) = (fo_month <$> fanouts st) ++ ms.
Proof.
  revert st. induction ms as [|m ms IH]; intros st.
  - by rewrite app_nil_r.
  - rewrite fold_left_cons_eq, IH, round_fanouts, <- app_assoc. done.
Qed.

(** A round that starts with an empty working list asks nothing and
    changes nothing but the log. *)
Lemma round_idle st month :
  voters st = [] →
  requests st month = []
  ∧ round st month
    = mkState (heap st) [] (registered_voters st) (voters_with_ballots st)
        (world st) (fanouts st ++ [mkFanout month [] [] []]).
Proof.
  intros Hnil.
  assert (Hreq : requests st month = []) by (unfold requests; by rewrite Hnil).
  split; [done|]. rewrite round_unfold. unfold classified, responses_of.
  rewrite Hreq, Hnil, api_multi_call_nil. done.
Qed.

(** What a round does with a response that carries the markers. *)
Lemma round_classifies st month v text :
  (v, Some text) ∈ classified st month →
  py_in registered_marker text = true →
  v ∈ registered_voters (round st month)
  ∧ (py_in no_application_marker text = false →
     v ∈ voters_with_ballots (round st month)
     ∧ Voter.birth_month (heap (round st month) v) = VInt month).
Proof.
  intros Hin Hmark.
  destruct (round_spec st month)
    as (h' & reg' & bal' & Hfold & -> & -> & -> & _).
  destruct (classify_fold month (classified st month) (heap st)
              (registered_voters st) (voters_with_ballots st))
    as (h1 & reg1 & bal1 & Hfold1 & _ & _ & _ & _ & _ & _ & _ & Heff).
  rewrite Hfold in Hfold1. injection Hfold1 as <- <- <-.
  by apply Heff.
Qed.

(** Every voter with a ballot got its birth month in the round that added
    it, and kept it. *)
Lemma ballots_month n h vs (w : World) v :
  v ∈ voters_with_ballots (after_rounds n h vs w) →
  ∃ m, 1 ≤ m ≤ n ∧ m ≤ 12
    ∧ Voter.birth_month (heap (after_rounds n h vs w) v) = VInt (Z.of_nat m)
    ∧ v ∉ voters_with_ballots (after_rounds (m - 1) h vs w)
    ∧ v ∈ voters_with_ballots (after_rounds m h vs w).
Proof.
  induction n as [|n IH].
  - intros []%elem_of_empty.
  - destruct (decide (n < 12)) as [Hn|Hn].
    2:{ rewrite (after_rounds_ge (S n)) by lia.
        rewrite (after_rounds_ge n) in IH by lia.
        intros (m & ? & ? & ?)%IH. exists m. split; [lia|done]. }
    destruct (decide (v ∈ voters_with_ballots (after_rounds n h vs w)))
      as [Hold|Hfresh].
    + destruct (IH Hold) as (m & Hm & Hm12 & Hmonth & Hbefore & Hafter).
      intros _. exists m. split; [lia|]. split; [done|]. split; [|done].
      rewrite after_rounds_S by done.
      destruct (after_rounds_inv n h vs w) as [Hactive Hsub].
      set (st := after_rounds n h vs w) in *.
      destruct (round_spec st (Z.of_nat (S n)))
        as (h' & reg' & bal' & Hfold & -> & _).
      destruct (classify_fold (Z.of_nat (S n)) (classified st (Z.of_nat (S n)))
                  (heap st) (registered_voters st) (voters_with_ballots st))
        as (h1 & reg1 & bal1 & Hfold1 & _ & _ & _ & _ & Hframe & _).
      rewrite Hfold in Hfold1. injection Hfold1 as <- <- <-.
      rewrite Hframe; [done|]. intros Hv%classified_voters.
      by apply (Hactive v Hv), Hsub.
    + intros Hnew. exists (S n). split; [lia|]. split; [lia|].
      replace (S n - 1) with n by lia. split; [|done].
      rewrite after_rounds_S in * by done.
      set (st := after_rounds n h vs w) in *.
      destruct (round_spec st (Z.of_nat (S n)))
        as (h' & reg' & bal' & Hfold & Hh & _ & Hb & _).
      rewrite Hh. rewrite Hb in Hnew.
      destruct (classify_fold (Z.of_nat (S n)) (classified st (Z.of_nat (S n)))
                  (heap st) (registered_voters st) (voters_with_ballots st))
        as (h1 & reg1 & bal1 & Hfold1 & _ & _ & _ & Hbnew & _).
      rewrite Hfold in Hfold1. injection Hfold1 as <- <- <-.
      by destruct (Hbnew v Hnew) as [?|(_ & _ & ?)].
Qed.

End Search.

Section Exact.
Context `{RT : Runtime}.
Import RegistrationAPIExecutor.

(** The loop over the pairs of a round, exactly: who is registered, who has
    a ballot, and what the store holds afterwards. *)
Lemma classify_fold_exact month pairs h reg bal h' reg' bal' :
  fold_left (classify month) pairs (h, reg, bal) = (h', reg', bal') →
  (∀ u, u ∈ reg' ↔ u ∈ reg
        ∨ ∃ text, (u, Some text) ∈ pairs ∧ py_in registered_marker text = true)
  ∧ (∀ u, u ∈ bal' ↔ u ∈ bal
        ∨ ∃ text, (u, Some text) ∈ pairs ∧ py_in registered_marker text = true
            ∧ py_in no_application_marker text = false)
  ∧ (∀ u, h' u = h u ∨ h' u = Voter.with_birth_month (h u) (VInt month))
  ∧ (∀ u, (∃ text, (u, Some text) ∈ pairs ∧ py_in registered_marker text = true
             ∧ py_in no_application_marker text = false) →
          h' u = Voter.with_birth_month (h u) (VInt month))
  ∧ (∀ u, ¬ (∃ text, (u, Some text) ∈ pairs ∧ py_in registered_marker text = true
               ∧ py_in no_application_marker text = false) →
          h' u = h u).
Proof.
  assert (Hmarker : ∀ text, py_in registered_marker text = true →
                            truthy (VStr text) = true).
  { by intros [|c text]. }
  revert h reg bal. induction pairs as [|[v page] pairs IH]; intros h reg bal.
  { intros [= <- <- <-]. split_and!.
    - intros u. split; [by left|]. intros [?|(? & []%elem_of_nil & _)]. done.
    - intros u. split; [by left|]. intros [?|(? & []%elem_of_nil & _)]. done.
    - by left.
    - intros u (? & []%elem_of_nil & _).
    - done. }
  rewrite fold_left_cons_eq.
  destruct (classify month (h, reg, bal) (v, page)) as [[h1 reg1] bal1] eqn:Hstep.
  intros (Hreg & Hbal & Hrange & Hset & Hkeep)%IH. clear IH.
  unfold classify in Hstep. destruct page as [text|].
  2:{ injection Hstep as <- <- <-. split_and!.
      - intros u. rewrite Hreg. split.
        + intros [?|(t & Hin & ?)]; [by left|right]. exists t.
          split; [by apply elem_of_cons; right|done].
        + intros [?|(t & [[=]|Hin]%elem_of_cons & ?)]; [by left|right]. by exists t.
      - intros u. rewrite Hbal. split.
        + intros [?|(t & Hin & ?)]; [by left|right]. exists t.
          split; [by apply elem_of_cons; right|done].
        + intros [?|(t & [[=]|Hin]%elem_of_cons & ?)]; [by left|right]. by exists t.
      - done.
      - intros u (t & [[=]|Hin]%elem_of_cons & ?). apply Hset. by exists t.
      - intros u Hno. apply Hkeep. intros (t & Hin & ?). apply Hno. exists t.
        split; [by apply elem_of_cons; right|done]. }
  destruct (py_in registered_marker text) eqn:Hmark.
  2:{ rewrite andb_false_r in Hstep. injection Hstep as <- <- <-. split_and!.
      - intros u. rewrite Hreg. split.
        + intros [?|(t & Hin & ?)]; [by left|right]. exists t.
          split; [by apply elem_of_cons; right|done].
        + intros [?|(t & [[= -> <-]|Hin]%elem_of_cons & ?)];
            [by left|congruence|right]. by exists t.
      - intros u. rewrite Hbal. split.
        + intros [?|(t & Hin & ?)]; [by left|right]. exists t.
          split; [by apply elem_of_cons; right|done].
        + intros [?|(t & [[= -> <-]|Hin]%elem_of_cons & ? & ?)];
            [by left|congruence|right]. by exists t.
      - done.
      - intros u (t & [[= -> <-]|Hin]%elem_of_cons & ? & ?); [congruence|].
        apply Hset. by exists t.
      - intros u Hno. apply Hkeep. intros (t & Hin & ?). apply Hno. exists t.
        split; [by apply elem_of_cons; right|done]. }
  rewrite (Hmarker _ Hmark) in Hstep. cbn [andb] in Hstep.
  destruct (py_in no_application_marker text) eqn:Hav; cbn [negb] in Hstep;
    injection Hstep as <- <- <-.
  - (* registered, the application not on record *)
    split_and!.
    + intros u. rewrite Hreg, elem_of_union, elem_of_singleton. split.
      * intros [[->|?]|(t & Hin & ?)].
        -- right. exists text. split; [by apply elem_of_cons; left|done].
        -- by left.
        -- right. exists t. split; [by apply elem_of_cons; right|done].
      * intros [?|(t & [[= -> <-]|Hin]%elem_of_cons & ?)].
        -- left. by right.
        -- left. by left.
        -- right. by exists t.
    + intros u. rewrite Hbal. split.
      * intros [?|(t & Hin & ?)]; [by left|right]. exists t.
        split; [by apply elem_of_cons; right|done].
      * intros [?|(t & [[= -> <-]|Hin]%elem_of_cons & ? & ?)];
          [by left|congruence|right]. by exists t.
    + done.
    + intros u (t & [[= -> <-]|Hin]%elem_of_cons & ? & ?); [congruence|].
      apply Hset. by exists t.
    + intros u Hno. apply Hkeep. intros (t & Hin & ?). apply Hno. exists t.
      split; [by apply elem_of_cons; right|done].
  - (* registered, the application on record *)
    unfold Heap in *.
    assert (Hh1 : ∀ u, u ≠ v →
      (<[v:=Voter.with_birth_month (h v) (VInt month)]> h) u = h u).
    { intros u Hu. by rewrite fn_lookup_insert_ne. }
    assert (Hh1v :
      (<[v:=Voter.with_birth_month (h v) (VInt month)]> h) v
      = Voter.with_birth_month (h v) (VInt month)).
    { by rewrite fn_lookup_insert. }
    split_and!.
    + intros u. rewrite Hreg, elem_of_union, elem_of_singleton. split.
      * intros [[->|?]|(t & Hin & ?)].
        -- right. exists text. split; [by apply elem_of_cons; left|done].
        -- by left.
        -- right. exists t. split; [by apply elem_of_cons; right|done].
      * intros [?|(t & [[= -> <-]|Hin]%elem_of_cons & ?)].
        -- left. by right.
        -- left. by left.
        -- right. by exists t.
    + intros u. rewrite Hbal, elem_of_union, elem_of_singleton. split.
      * intros [[->|?]|(t & Hin & ?)].
        -- right. exists text. split; [by apply elem_of_cons; left|done].
        -- by left.
        -- right. exists t. split; [by apply elem_of_cons; right|done].
      * intros [?|(t & [[= -> <-]|Hin]%elem_of_cons & ?)].
        -- left. by right.
        -- left. by left.
        -- right. by exists t.
    + intros u. destruct (decide (u = v)) as [->|Hne].
      * right. destruct (Hrange v) as [->| ->]; by rewrite Hh1v.
      * destruct (Hrange u) as [->| ->]; rewrite (Hh1 u Hne); [by left|by right].
    + intros u (t & [[= -> <-]|Hin]%elem_of_cons & Hm & Ha).
      * destruct (Hrange v) as [->| ->]; by rewrite Hh1v.
      * rewrite (Hset u) by (by exists t).
        destruct (decide (u = v)) as [->|Hne]; [by rewrite Hh1v|by rewrite Hh1].
    + intros u Hno. assert (u ≠ v) as Hne.
      { intros ->. apply Hno. exists text. split; [by apply elem_of_cons; left|done]. }
      rewrite Hkeep, Hh1; [done|done|].
      intros (t & Hin & ?). apply Hno. exists t.
      split; [by apply elem_of_cons; right|done].
Qed.

(** A round, exactly. *)
Lemma round_exact (st : State World) month v :
  (v ∈ registered_voters (round st month)
     ↔ v ∈ registered_voters st ∨ registered_hit st month v)
  ∧ (v ∈ voters_with_ballots (round st month)
     ↔ v ∈ voters_with_ballots st ∨ ballot_hit st month v)
  ∧ (ballot_hit st month v →
     heap (round st month) v = Voter.with_birth_month (heap st v) (VInt month))
  ∧ (¬ ballot_hit st month v → heap (round st month) v = heap st v).
Proof.
  destruct (round_spec st month)
    as (h' & reg' & bal' & Hfold & -> & -> & -> & _).
  destruct (classify_fold_exact _ _ _ _ _ _ _ _ Hfold)
    as (Hreg & Hbal & _ & Hset & Hkeep).
  unfold registered_hit, ballot_hit. split_and!; auto.
Qed.

End Exact.

Section Frame.
Context `{RT : Runtime}.
Import RegistrationAPIExecutor.

Lemma classify_untouched month h reg bal v page h' reg' bal' u :
  classify month (h, reg, bal) (v, page) = (h', reg', bal') →
  u ∉ bal' → h' u = h u.
Proof.
  unfold classify. destruct page as [text|]; [|by intros [= <- <- <-]].
  destruct (truthy (VStr text) && py_in registered_marker text);
    [|by intros [= <- <- <-]].
  destruct (negb (py_in no_application_marker text)); intros [= <- <- <-]; [|done].
  intros Hu. unfold Heap in *. rewrite fn_lookup_insert_ne; [done|]. set_solver.
Qed.

Lemma classify_fold_untouched month pairs h reg bal h' reg' bal' u :
  fold_left (classify month) pairs (h, reg, bal) = (h', reg', bal') →
  u ∉ bal' → h' u = h u.
Proof.
  revert h reg bal. induction pairs as [|[v page] pairs IH]; intros h reg bal.
  - by intros [= <- <- <-].
  - rewrite fold_left_cons_eq.
    destruct (classify month (h, reg, bal) (v, page)) as [[h1 reg1] bal1] eqn:Hstep.
    intros Hfold Hu.
    destruct (classify_fold month pairs h1 reg1 bal1)
      as (h2 & reg2 & bal2 & Hfold2 & _ & Hbal & _).
    rewrite Hfold in Hfold2. injection Hfold2 as <- <- <-.
    rewrite (IH _ _ _ Hfold Hu).
    eapply classify_untouched; [exact Hstep|]. intros Hin. by apply Hu, Hbal.
Qed.

(** What the search never does: it asks about, registers and changes input
    entries only, and changes nothing but the birth month of a voter with a
    ballot. *)
Lemma search_frame n h vs (w : World) :
  sublist (voters (after_rounds n h vs w)) vs
  ∧ (∀ v, v ∈ registered_voters (after_rounds n h vs w) → v ∈ vs)
  ∧ (∀ v, same_identity (heap (after_rounds n h vs w) v) (h v))
  ∧ (∀ v, v ∉ voters_with_ballots (after_rounds n h vs w) →
          heap (after_rounds n h vs w) v = h v).
Proof.
  induction n as [|n IH].
  - split_and!; try done; intros v []%elem_of_empty.
  - destruct (decide (n < 12)) as [Hn|Hn].
    2:{ rewrite (after_rounds_ge (S n)) by lia.
        by rewrite (after_rounds_ge n) in IH by lia. }
    rewrite after_rounds_S by done.
    destruct IH as (Hsub & Hreg & Hid & Hsame).
    set (st := after_rounds n h vs w) in *.
    destruct (round_spec st (Z.of_nat (S n)))
      as (h' & reg' & bal' & Hfold & -> & -> & -> & ->).
    destruct (classify_fold (Z.of_nat (S n)) (classified st (Z.of_nat (S n)))
                (heap st) (registered_voters st) (voters_with_ballots st))
      as (h1 & reg1 & bal1 & Hfold1 & _ & Hbal & Hnew & _ & _ & _ & Hid1 & _).
    rewrite Hfold in Hfold1. injection Hfold1 as <- <- <-.
    split_and!.
    + etrans; [apply filter_sublist|done].
    + intros v [Hv|Hv%classified_voters]%Hnew; [by apply Hreg|].
      by eapply elem_of_sublist.
    + intros v. eapply same_identity_trans; [apply Hid1|apply Hid].
    + intros v Hv. rewrite (classify_fold_untouched _ _ _ _ _ _ _ _ v Hfold Hv).
      apply Hsame. intros Hin. by apply Hv, Hbal.
Qed.

Lemma filter_all {A} (f : A → bool) (l : list A) :
  (∀ x, x ∈ l → f x = true) → List.filter f l = l.
Proof.
  induction l as [|x l IH]; intros Hall; cbn; [done|].
  rewrite (Hall x) by (by left). rewrite IH; [done|].
  intros y Hy. apply Hall. by right.
Qed.

End Frame.

(** C7. For every input and every [m], the working list after round [m + 1]
    is a sublist of the working list after round [m], hence no longer: the
    update at the end of a round adds no entry and keeps exactly the entries
    that are not in [registered_voters]. *)
Theorem active_set_shrinks `{RT : Runtime} h vs (w : World) m :
  let before := RegistrationAPIExecutor.after_rounds m h vs w in
  let after := RegistrationAPIExecutor.after_rounds (S m) h vs w in
  sublist (RegistrationAPIExecutor.voters after) (RegistrationAPIExecutor.voters before)
  ∧ length (RegistrationAPIExecutor.voters after)
    ≤ length (RegistrationAPIExecutor.voters before)
  ∧ ∀ v, v ∈ RegistrationAPIExecutor.voters after ↔
         v ∈ RegistrationAPIExecutor.voters before
         ∧ v ∉ RegistrationAPIExecutor.registered_voters after.
Proof.
  cbn zeta.
  assert (Hgoal :
    sublist (RegistrationAPIExecutor.voters (RegistrationAPIExecutor.after_rounds (S m) h vs w))
            (RegistrationAPIExecutor.voters (RegistrationAPIExecutor.after_rounds m h vs w))
    ∧ ∀ v, v ∈ RegistrationAPIExecutor.voters (RegistrationAPIExecutor.after_rounds (S m) h vs w) ↔
           v ∈ RegistrationAPIExecutor.voters (RegistrationAPIExecutor.after_rounds m h vs w)
           ∧ v ∉ RegistrationAPIExecutor.registered_voters
                   (RegistrationAPIExecutor.after_rounds (S m) h vs w)).
  { destruct (decide (m < 12)) as [Hm|Hm].
    - rewrite after_rounds_S by done.
      destruct (round_spec (RegistrationAPIExecutor.after_rounds m h vs w) (Z.of_nat (S m)))
        as (h' & reg' & bal' & _ & _ & -> & _ & ->).
      split; [apply filter_sublist|]. intros v.
      rewrite elem_of_filter_bool, bool_decide_eq_true. done.
    - pose proof (after_rounds_inv m h vs w) as [Hactive _].
      rewrite after_rounds_ge in Hactive by lia.
      rewrite !after_rounds_ge by lia. split; [done|].
      intros v. split; [intros Hv; split; [done|by apply Hactive]|by intros [? _]]. }
  destruct Hgoal as [Hsub Hiff]. split; [done|]. split; [|done].
  by apply sublist_length.
Qed.

(** C8, as the code has it. For every input the loop over the months runs
    all twelve rounds, one per month 1..12 in increasing order, and returns;
    it does not stop early: a round that starts with an empty working list
    dispatches no request and changes neither the sets, nor the store, nor
    the outside world. *)
Theorem search_runs_twelve_rounds `{RT : Runtime} h vs (w : World) :
  RegistrationAPIExecutor.fo_month <$> RegistrationAPIExecutor.fanouts (RegistrationAPIExecutor.search h vs w)
  = [1; 2; 3; 4; 5; 6; 7; 8; 9; 10; 11; 12]%Z
  ∧ ∀ st month,
      RegistrationAPIExecutor.voters st = [] →
      RegistrationAPIExecutor.requests st month = []
      ∧ RegistrationAPIExecutor.round st month
        = RegistrationAPIExecutor.mkState
            (RegistrationAPIExecutor.heap st) []
            (RegistrationAPIExecutor.registered_voters st)
            (RegistrationAPIExecutor.voters_with_ballots st)
            (RegistrationAPIExecutor.world st)
            (RegistrationAPIExecutor.fanouts st
               ++ [RegistrationAPIExecutor.mkFanout month [] [] []]).
Proof.
  split.
  - unfold RegistrationAPIExecutor.search. by rewrite rounds_fanouts.
  - intros st month. apply round_idle.
Qed.

(** C8, as stated, fails: with an empty working list from the start, the
    loop still runs its twelve rounds. *)
Lemma search_runs_on_empty_input :
  RegistrationAPIExecutor.voters
    (RegistrationAPIExecutor.initial (RT := welcoming) twins [] 0) = []
  ∧ RegistrationAPIExecutor.fo_month <$> RegistrationAPIExecutor.fanouts
      (RegistrationAPIExecutor.search (RT := welcoming) twins [] 0)
    = [1; 2; 3; 4; 5; 6; 7; 8; 9; 10; 11; 12]%Z.
Proof. split; [done|]. by vm_compute. Qed.

(** C2, as the code has it. In every round, an entry paired with a response
    that contains the marker [Yes, you are registered!] is added to
    [registered_voters]; its birth month is set to the round's month, and it
    is added to [voters_with_ballots], when the response also lacks the
    marker of the missing application, and only then: a round registers
    exactly the entries paired with a response that has the first marker,
    adds to [voters_with_ballots] exactly the entries paired with a response
    that has the first marker and lacks the second, sets the birth month of
    exactly these, and leaves every other entry as it was. Hence, after any
    number of rounds, every entry in [voters_with_ballots] is registered and
    carries the month of the round that added it, and every entry outside
    [voters_with_ballots], registered or not, is as it was in the input. *)
Theorem ballots_carry_their_month `{RT : Runtime} h vs (w : World) :
  (∀ st month v text,
     (v, Some text) ∈ classified st month →
     py_in RegistrationAPIExecutor.registered_marker text = true →
     v ∈ RegistrationAPIExecutor.registered_voters
           (RegistrationAPIExecutor.round st month)
     ∧ (py_in RegistrationAPIExecutor.no_application_marker text = false →
        v ∈ RegistrationAPIExecutor.voters_with_ballots
              (RegistrationAPIExecutor.round st month)
        ∧ Voter.birth_month
            (RegistrationAPIExecutor.heap (RegistrationAPIExecutor.round st month) v)
          = VInt month))
  ∧ (∀ st month v,
     (v ∈ RegistrationAPIExecutor.registered_voters
            (RegistrationAPIExecutor.round st month)
      ↔ v ∈ RegistrationAPIExecutor.registered_voters st
        ∨ registered_hit st month v)
     ∧ (v ∈ RegistrationAPIExecutor.voters_with_ballots
              (RegistrationAPIExecutor.round st month)
        ↔ v ∈ RegistrationAPIExecutor.voters_with_ballots st
          ∨ ballot_hit st month v)
     ∧ (ballot_hit st month v →
        RegistrationAPIExecutor.heap (RegistrationAPIExecutor.round st month) v
        = Voter.with_birth_month (RegistrationAPIExecutor.heap st v) (VInt month))
     ∧ (¬ ballot_hit st month v →
        RegistrationAPIExecutor.heap (RegistrationAPIExecutor.round st month) v
        = RegistrationAPIExecutor.heap st v))
  ∧ (∀ n v,
     v ∈ RegistrationAPIExecutor.voters_with_ballots
           (RegistrationAPIExecutor.after_rounds n h vs w) →
     v ∈ RegistrationAPIExecutor.registered_voters
           (RegistrationAPIExecutor.after_rounds n h vs w)
     ∧ ∃ m, 1 ≤ m ≤ n ∧ m ≤ 12
       ∧ Voter.birth_month
           (RegistrationAPIExecutor.heap
              (RegistrationAPIExecutor.after_rounds n h vs w) v)
         = VInt (Z.of_nat m)
       ∧ v ∉ RegistrationAPIExecutor.voters_with_ballots
               (RegistrationAPIExecutor.after_rounds (m - 1) h vs w)
       ∧ v ∈ RegistrationAPIExecutor.voters_with_ballots
               (RegistrationAPIExecutor.after_rounds m h vs w))
  ∧ (∀ n v,
     v ∉ RegistrationAPIExecutor.voters_with_ballots
           (RegistrationAPIExecutor.after_rounds n h vs w) →
     RegistrationAPIExecutor.heap (RegistrationAPIExecutor.after_rounds n h vs w) v
     = h v).
Proof.
  split_and!.
  - intros st month v text. apply round_classifies.
  - intros st month v. apply round_exact.
  - intros n v Hv. split; [|by apply ballots_month].
    by apply (after_rounds_inv n h vs w).
  - intros n v. apply (search_frame n h vs w).
Qed.

(** C2, as stated, fails: an entry whose response has both markers is
    registered and keeps its birth month unset. *)
Lemma registered_without_month :
  let st := RegistrationAPIExecutor.initial (RT := pending)
              (RegistrationChecker.heap_of [alice]) [0] 0 in
  classified (RT := pending) st 1
  = [(0, Some "Yes, you are registered! Your clerk has not recorded receiving your AV Application.")]
  ∧ elements (RegistrationAPIExecutor.registered_voters
                (RegistrationAPIExecutor.round (RT := pending) st 1)) = [0]
  ∧ Voter.birth_month
      (RegistrationAPIExecutor.heap
         (RegistrationAPIExecutor.round (RT := pending) st 1) 0) = VNone
  ∧ elements (RegistrationAPIExecutor.registered_voters
                (RegistrationAPIExecutor.search (RT := pending)
                   (RegistrationChecker.heap_of [alice]) [0] 0)) = [0]
  ∧ Voter.birth_month
      (RegistrationAPIExecutor.heap
         (RegistrationAPIExecutor.search (RT := pending)
            (RegistrationChecker.heap_of [alice]) [0] 0) 0) = VNone.
Proof. by vm_compute. Qed.

(** C3, as the code has it. For every input,
    [get_voters_with_absentee_ballots] returns the voters with ballots, each
    once, in the order in which the set yields them; the caller
    [get_voters_with_ballots] then sorts that list, and the sorted list holds
    the same voters in ascending order of birth year. *)
Theorem found_voters_sorted_by_caller `{RT : Runtime} h vs (w : World) :
  let st := RegistrationAPIExecutor.search h vs w in
  let found := (RegistrationAPIExecutor.get_voters_with_absentee_ballots h vs w).1.1 in
  let sorted := (RegistrationChecker.sorted_voters h vs w).1.1 in
  found ≡ₚ elements (RegistrationAPIExecutor.voters_with_ballots st)
  ∧ NoDup found
  ∧ sorted ≡ₚ found
  ∧ ascending_by_year (RegistrationAPIExecutor.heap st) sorted.
Proof.
  cbn zeta. unfold RegistrationChecker.sorted_voters,
    RegistrationAPIExecutor.get_voters_with_absentee_ballots. cbn [fst snd].
  set (st := RegistrationAPIExecutor.search h vs w).
  split; [apply set_order_perm|]. split.
  { rewrite set_order_perm. apply NoDup_elements. }
  split; [apply sort_by_perm|apply sort_by_sorted].
Qed.

(** C3, as stated, fails: what [get_voters_with_absentee_ballots] itself
    returns need not be in order of birth year. *)
Lemma found_voters_unsorted :
  let out := RegistrationAPIExecutor.get_voters_with_absentee_ballots
               (RT := welcoming) carol_then_alice [0; 1] 0 in
  out.1.1 = [1; 0]
  ∧ Voter.birth_year (out.1.2 1) = 1990%Z
  ∧ Voter.birth_year (out.1.2 0) = 1972%Z
  ∧ ¬ ascending_by_year out.1.2 out.1.1.
Proof.
  cbn zeta.
  assert (Hout :
    (RegistrationAPIExecutor.get_voters_with_absentee_ballots
       (RT := welcoming) carol_then_alice [0; 1] 0).1.1 = [1; 0]
    ∧ Voter.birth_year
        ((RegistrationAPIExecutor.get_voters_with_absentee_ballots
            (RT := welcoming) carol_then_alice [0; 1] 0).1.2 1) = 1990%Z
    ∧ Voter.birth_year
        ((RegistrationAPIExecutor.get_voters_with_absentee_ballots
            (RT := welcoming) carol_then_alice [0; 1] 0).1.2 0) = 1972%Z)
    by (by vm_compute).
  destruct Hout as (Hfound & H1 & H0). split_and!; [done..|].
  rewrite Hfound. unfold ascending_by_year.
  intros Hs. inversion Hs as [|? ? _ Hall]; subst.
  apply Forall_cons_iff in Hall as [Hle _]. rewrite H1, H0 in Hle. lia.
Qed.

(** C1 fails on the code: the pairs classified are taken from the whole
    working list, not from the entries that were asked about. With Bob (month
    3 on record) ahead of Alice (month unknown), the round for month 1 sends
    one request, built from Alice, and classifies its response against Bob,
    who thereby gets month 1 and a place among the voters with ballots. *)
Theorem response_paired_with_wrong_entry :
  let st := RegistrationAPIExecutor.initial (RT := welcoming) bob_then_alice [0; 1] 0 in
  bob_then_alice 0 = bob ∧ bob_then_alice 1 = alice
  ∧ RegistrationAPIExecutor.requests st 1 = [Voter.get_api_args alice 1]
  ∧ classified (RT := welcoming) st 1 = [(0, Some "Yes, you are registered!")]
  ∧ Voter.get_api_args (bob_then_alice 0) 1 ≠ Voter.get_api_args alice 1
  ∧ elements (RegistrationAPIExecutor.voters_with_ballots
                (RegistrationAPIExecutor.round (RT := welcoming) st 1)) = [0]
  ∧ Voter.birth_month
      (RegistrationAPIExecutor.heap
         (RegistrationAPIExecutor.round (RT := welcoming) st 1) 0) = VInt 1.
Proof. cbn zeta. split_and!; by vm_compute. Qed.

(** * Further properties of the code *)

(** ** Voter *)

Lemma split_length sep s : length (split sep s) = S (count_char sep s).
Proof.
  induction s as [|c s IH]; [done|]. cbn.
  destruct (Ascii.eqb c sep); cbn; [by rewrite IH|].
  destruct (split sep s); cbn in *; lia.
Qed.

Lemma split_short_record f l y z :
  sep_free "," f = true → sep_free "," l = true →
  sep_free "," y = true → sep_free "," z = true →
  split "," (short_record_of f l y z) = [f; l; y; z].
Proof.
  intros Hf Hl Hy Hz. unfold short_record_of.
  rewrite !split_app_join by done. by rewrite split_sep_free.
Qed.

Lemma init_four entry f l y z :
  split "," entry = [f; l; y; z] →
  Voter.__init__ entry =
  match py_int y with
  | Some year => inr (Voter.mk f l VNone year z)
  | None => inl bad_literal
  end.
Proof.
  intros Hs. unfold Voter.__init__. rewrite Hs.
  unfold Voter.convert, int_, bind, ret, raise. by destruct (py_int y).
Qed.

Lemma init_five entry f l m y z :
  split "," entry = [f; l; m; y; z] →
  Voter.__init__ entry =
  match py_int y with
  | None => inl bad_literal
  | Some year =>
      if String.eqb m "Unknown" then inr (Voter.mk f l VNone year z)
      else if String.eqb m "" then inr (Voter.mk f l (VStr "") year z)
      else match py_int m with
           | Some month => inr (Voter.mk f l (VInt month) year z)
           | None => inl bad_literal
           end
  end.
Proof.
  intros Hs. unfold Voter.__init__. rewrite Hs.
  unfold Voter.convert, int_, bind, ret, raise.
  destruct (py_int y); [|reflexivity].
  destruct (String.eqb m "Unknown"); [reflexivity|]. cbn [truthy].
  destruct (String.eqb m "") eqn:He.
  { by apply String.eqb_eq in He as ->. }
  cbn [negb]. by destruct (py_int m).
Qed.

Lemma init_other entry :
  length (split "," entry) ≠ 4 → length (split "," entry) ≠ 5 →
  Voter.__init__ entry = inl bad_fields.
Proof.
  unfold Voter.__init__.
  by destruct (split "," entry) as [|f [|l [|a [|b [|c [|d rest]]]]]].
Qed.

(** X1. Construction succeeds exactly on records of four fields with a
    numeric year (the month is then [None]) and on records of five fields
    with a numeric year whose month field is [Unknown] (month [None]), empty
    (the empty string is kept) or numeric (the number is stored); in every
    other case it raises [ValueError], and never another exception. *)
Theorem init_succeeds_iff entry :
  (∀ v, Voter.__init__ entry = inr v ↔
     (∃ f l y z year,
        split "," entry = [f; l; y; z] ∧ py_int y = Some year
        ∧ v = Voter.mk f l VNone year z)
     ∨ (∃ f l m y z year,
        split "," entry = [f; l; m; y; z] ∧ py_int y = Some year
        ∧ ((m = "Unknown" ∧ v = Voter.mk f l VNone year z)
           ∨ (m = "" ∧ v = Voter.mk f l (VStr "") year z)
           ∨ (∃ month, py_int m = Some month
                ∧ v = Voter.mk f l (VInt month) year z))))
  ∧ ((∃ v, Voter.__init__ entry = inr v)
     ∨ (∃ msg, Voter.__init__ entry = inl (ValueError msg))).
Proof.
  assert (Hunknown : py_int "Unknown" = None) by done.
  assert (Hempty : py_int "" = None) by done.
  split.
  - intros v. split.
    + destruct (split "," entry) as [|f [|l [|a [|b [|c [|d rest]]]]]] eqn:Hs;
        try (rewrite init_other by (rewrite Hs; cbn; lia); discriminate).
      * rewrite (init_four _ _ _ _ _ Hs). destruct (py_int a) eqn:Hy; [|done].
        intros [= <-]. left. by eexists _, _, _, _, _.
      * rewrite (init_five _ _ _ _ _ _ Hs). destruct (py_int b) eqn:Hy; [|done].
        destruct (String.eqb a "Unknown") eqn:Hu.
        { apply String.eqb_eq in Hu as ->. intros [= <-]. right.
          eexists _, _, _, _, _, _. eauto. }
        destruct (String.eqb a "") eqn:He.
        { apply String.eqb_eq in He as ->. intros [= <-]. right.
          eexists _, _, _, _, _, _. eauto 10. }
        destruct (py_int a) eqn:Hm; [|done]. intros [= <-]. right.
        eexists _, _, _, _, _, _. eauto 10.
    + intros [(f & l & y & z & year & Hs & Hy & ->)
             |(f & l & m & y & z & year & Hs & Hy & Hm)].
      * by rewrite (init_four _ _ _ _ _ Hs), Hy.
      * rewrite (init_five _ _ _ _ _ _ Hs), Hy.
        destruct Hm as [[-> ->]|[[-> ->]|(month & Hm & ->)]]; [done|done|].
        destruct (String.eqb m "Unknown") eqn:Hu.
        { apply String.eqb_eq in Hu as ->. congruence. }
        destruct (String.eqb m "") eqn:He.
        { apply String.eqb_eq in He as ->. congruence. }
        by rewrite Hm.
  - destruct (Voter.__init__ entry) as [e|v] eqn:Hinit; [right|left; by eexists].
    revert Hinit.
    destruct (split "," entry) as [|f [|l [|a [|b [|c [|d rest]]]]]] eqn:Hs;
      try (rewrite init_other by (rewrite Hs; cbn; lia); intros [= <-]; by eexists).
    + rewrite (init_four _ _ _ _ _ Hs). destruct (py_int a); [done|].
      intros [= <-]. by eexists.
    + rewrite (init_five _ _ _ _ _ _ Hs). destruct (py_int b); [|intros [= <-]; by eexists].
      destruct (String.eqb a "Unknown"); [done|].
      destruct (String.eqb a ""); [done|].
      destruct (py_int a); [done|]. intros [= <-]. by eexists.
Qed.
(** X2. A record is accepted only with three or four commas: with any
    other number of commas (the five of the message among them) the
    constructor raises the [ValueError] whose message asks for 4 or 5
    commas. *)
Theorem init_counts_fields entry :
  count_char "," entry ≠ 3 → count_char "," entry ≠ 4 →
  Voter.__init__ entry = inl bad_fields.
Proof.
  intros H3 H4. apply init_other; rewrite split_length; lia.
Qed.

Lemma init_counts_fields_witness :
  Voter.__init__ "Ann,Lee,7,1970,48104,x" = inl bad_fields.
Proof. apply init_counts_fields; vm_compute; lia. Defined.

(** X3. Parsing then serializing: a record of five fields with a month
    [m ≠ 0] and a year written as [str] writes them is reproduced as it is;
    a record of four fields is reproduced with [Unknown] as its month. *)
Theorem parse_then_serialize f l z month year :
  sep_free "," f = true → sep_free "," l = true → sep_free "," z = true →
  month ≠ 0%Z →
  (∃ v, Voter.__init__ (record_of f l (py_str month) (py_str year) z) = inr v
        ∧ Voter.__str__ v = record_of f l (py_str month) (py_str year) z)
  ∧ (∃ v, Voter.__init__ (short_record_of f l (py_str year) z) = inr v
        ∧ Voter.__str__ v = record_of f l "Unknown" (py_str year) z).
Proof.
  intros Hf Hl Hz Hmonth. split.
  - eexists. split.
    + rewrite (init_five _ f l (py_str month) (py_str year) z)
        by (apply split_record; auto using py_str_sep_free).
      rewrite !py_int_str, py_str_not_unknown.
      pose proof (py_str_nonempty month) as Hne%String.eqb_neq.
      by rewrite Hne.
    + rewrite str_record. cbn.
      by apply Z.eqb_neq in Hmonth as ->.
  - eexists. split.
    + rewrite (init_four _ f l (py_str year) z)
        by (apply split_short_record; auto using py_str_sep_free).
      by rewrite py_int_str.
    + by rewrite str_record.
Qed.

Lemma parse_then_serialize_witness :
  (∃ v, Voter.__init__ "Bob,Jones,3,1985,48105" = inr v
        ∧ Voter.__str__ v = "Bob,Jones,3,1985,48105")
  ∧ (∃ v, Voter.__init__ "Bob,Jones,1985,48105" = inr v
        ∧ Voter.__str__ v = "Bob,Jones,Unknown,1985,48105").
Proof.
  apply (parse_then_serialize "Bob" "Jones" "48105" 3 1985); done.
Defined.
Section ApiCallBounds.
Context `{RT : Runtime}.
Import RegistrationAPIExecutor.


End ApiCallBounds.

Section Semaphore.
Context `{RT : Runtime} (url : string).
Import RegistrationAPIExecutor.

Lemma in_flight_count_insert (ts : list Task) i t t' :
  ts !! i = Some t →
  in_flight_count (<[i := t']> ts) + (if holds_slot t then 1 else 0)
  = in_flight_count ts + (if holds_slot t' then 1 else 0).
Proof.
  unfold in_flight_count. revert i.
  induction ts as [|t0 ts IH]; intros [|i] Hi; try done.
  - injection Hi as ->.
    change (<[0 := t']> (t :: ts)) with (t' :: ts). cbn [List.filter].
    destruct (holds_slot t), (holds_slot t'); cbn [length]; lia.
  - specialize (IH i Hi).
    change (<[S i := t']> (t0 :: ts)) with (t0 :: <[i := t']> ts).
    cbn [List.filter].
    destruct (holds_slot t0), (holds_slot t), (holds_slot t');
      cbn [length] in *; lia.
Qed.

Lemma resume_slots t free (w : World) t' free' w' evs :
  resume url t free w = (t', free', w', evs) →
  free' + (if holds_slot t' then 1 else 0) = free + (if holds_slot t then 1 else 0).
Proof.
  destruct t as [[|n todo] a|n todo a|r]; cbn.
  - by intros [= <- <- <- <-].
  - destruct free; intros [= <- <- <- <-]; cbn; lia.
  - destruct (post url a w) as [[text|e] w'']; intros [= <- <- <- <-]; cbn; lia.
  - by intros [= <- <- <- <-].
Qed.

Lemma resume_task_slots i (L : Loop World) :
  slots_ok L → slots_ok (resume_task url i L).
Proof.
  unfold slots_ok. intros HL. destruct (tasks L !! i) as [t|] eqn:Ht.
  2:{ by rewrite resume_task_none. }
  destruct (resume_task_self url i L t Ht) as (t' & free & w & evs & Hres & -> & _).
  cbn [tasks sem]. pose proof (in_flight_count_insert _ _ _ t' Ht) as H1.
  pose proof (resume_slots _ _ _ _ _ _ _ Hres) as H2.
  destruct (holds_slot t), (holds_slot t'); lia.
Qed.

Lemma finished_in_flight_count (ts : list Task) :
  Forall finished ts → in_flight_count ts = 0.
Proof.
  unfold in_flight_count. induction 1 as [|t ts Ht _ IH]; [done|].
  by destruct t.
Qed.

End Semaphore.

(** [interior] runs the given order, then the drain, from [start]. *)
Lemma interior_from_start `{RT : Runtime} url arguments (w : World) :
  RegistrationAPIExecutor.interior url arguments w
  = RegistrationAPIExecutor.drain url
      (RegistrationAPIExecutor.run url (resume_order w) (start arguments w)).
Proof. reflexivity. Qed.

(** X5. At most fifty requests are ever under way: from the start of a
    fan-out, after any sequence of resumptions of any tasks, the free slots
    of the semaphore and the requests under way add up to fifty; and when
    the fan-out returns, no request is under way and all fifty slots are
    free again. *)
Theorem semaphore_never_exceeded `{RT : Runtime} url arguments (w : World) order :
  let L := RegistrationAPIExecutor.run url order (start arguments w) in
  RegistrationAPIExecutor.sem L
  + in_flight_count (RegistrationAPIExecutor.tasks L) = 50
  ∧ in_flight_count (RegistrationAPIExecutor.tasks L) ≤ 50
  ∧ RegistrationAPIExecutor.sem (RegistrationAPIExecutor.interior url arguments w) = 50
  ∧ in_flight_count
      (RegistrationAPIExecutor.tasks
         (RegistrationAPIExecutor.interior url arguments w)) = 0.
Proof.
  cbn zeta.
  assert (Hstart : slots_ok (start arguments w)).
  { unfold slots_ok, start, in_flight_count. cbn.
    induction arguments as [|a arguments IH]; cbn in *; [done|]. lia. }
  assert (Hrun : ∀ order, slots_ok (RegistrationAPIExecutor.run url order
                                      (start arguments w))).
  { intros order'. apply run_preserves; [|done].
    intros. by apply resume_task_slots. }
  assert (Hend : slots_ok (RegistrationAPIExecutor.interior url arguments w)).
  { unfold RegistrationAPIExecutor.interior. apply drain_preserves; [|apply Hrun].
    intros. by apply resume_task_slots. }
  destruct (interior_ok url arguments w) as [_ Hfin].
  apply finished_in_flight_count in Hfin.
  pose proof (Hrun order) as Ho. unfold slots_ok in *.
  split_and!; [done|lia|lia|done].
Qed.
Section Volume.
Context `{RT : Runtime}.
Import RegistrationAPIExecutor.

Lemma api_multi_call_length url arguments (w : World) :
  length (api_multi_call url arguments w).1.1 = length arguments.
Proof.
  destruct (interior_ok url arguments w) as [[Hlen _] _].
  unfold api_multi_call. cbn [fst snd]. by rewrite length_fmap.
Qed.

Lemma requests_length (st : State World) month :
  length (requests st month) ≤ length (voters st).
Proof.
  unfold requests. rewrite length_fmap. apply sublist_length, filter_sublist.
Qed.

Lemma round_volume (k : nat) (st : State World) month :
  length (voters st) ≤ k →
  Forall (λ fo, length (fo_requests fo) ≤ k
                ∧ length (fo_responses fo) = length (fo_requests fo)) (fanouts st) →
  length (voters (round st month)) ≤ k
  ∧ Forall (λ fo, length (fo_requests fo) ≤ k
                  ∧ length (fo_responses fo) = length (fo_requests fo))
      (fanouts (round st month)).
Proof.
  intros Hk Hall. rewrite round_unfold. cbn [voters fanouts]. split.
  - etrans; [apply sublist_length, filter_sublist|done].
  - apply Forall_app. split; [done|]. constructor; [|done]. cbn [fo_requests fo_responses].
    split; [|apply api_multi_call_length].
    etrans; [apply requests_length|done].
Qed.

Lemma rounds_volume (k : nat) ms (st : State World) :
  length (voters st) ≤ k →
  Forall (λ fo, length (fo_requests fo) ≤ k
                ∧ length (fo_responses fo) = length (fo_requests fo)) (fanouts st) →
  Forall (λ fo, length (fo_requests fo) ≤ k
                ∧ length (fo_responses fo) = length (fo_requests fo))
    (fanouts (fold_left round ms st)).
Proof.
  revert st. induction ms as [|m ms IH]; intros st Hk Hall; [done|].
  rewrite fold_left_cons_eq.
  destruct (round_volume k st m Hk Hall) as [Hk' Hall']. by apply IH.
Qed.

Lemma sum_list_bound (k : nat) (l : list nat) :
  Forall (λ n, n ≤ k) l → sum_list l ≤ length l * k.
Proof. induction 1; cbn; lia. Qed.

End Volume.

(** X6. In a fan-out every descriptor is requested at least once and at
    most five times, whatever the order in which the tasks are resumed: the
    task at position [i] makes between one and five requests, each of them
    to the fan-out's URL and with the descriptor at position [i]. These
    requests are really sent: the outside world, serving the requests of
    the returned trace in their order from the world the fan-out started
    in, gives the outcomes the trace records and ends in the world that is
    returned. *)
Theorem fan_out_attempts `{RT : Runtime} url arguments (w : World) i a :
  arguments !! i = Some a →
  let out := RegistrationAPIExecutor.api_multi_call url arguments w in
  1 ≤ length (post_events i out.2) ≤ 5
  ∧ Forall (λ ev, ∃ r, ev = EvPost url a r) (post_events i out.2)
  ∧ serve (posts_sent out.2) w = (posts_got out.2, out.1.2).
Proof.
  intros Hi. destruct (interior_ok url arguments w) as [[Hlen Hok] Hfin].
  pose proof (interior_faithful url arguments w) as Hserve.
  unfold faithful in Hserve.
  unfold RegistrationAPIExecutor.api_multi_call. cbn [fst snd].
  set (L := RegistrationAPIExecutor.interior url arguments w) in *.
  assert (Hposts : ∀ errs,
    Forall (λ ev, ∃ r, ev = EvPost url a r) (failures url a errs)).
  { intros errs. unfold failures. apply Forall_fmap, Forall_forall.
    intros e _. by exists (Raised e). }
  destruct (RegistrationAPIExecutor.tasks L !! i) as [t|] eqn:Ht.
  2:{ apply lookup_ge_None in Ht. apply lookup_lt_Some in Hi. lia. }
  pose proof (Forall_lookup_1 _ _ _ _ Hfin Ht) as Hft.
  destruct (Hok i t Ht) as (a' & errs & Ha & Hshape).
  assert (a' = a) as -> by congruence.
  destruct t as [| |[text|]]; try done.
  - destruct Hshape as [Hlt ->]. split_and!; [| | |exact Hserve].
    + unfold failures. rewrite length_app, length_fmap. cbn. lia.
    + unfold failures. rewrite length_app, length_fmap. cbn. lia.
    + apply Forall_app. split; [apply Hposts|].
      apply Forall_cons_iff. split; [by exists (Ok text)|apply Forall_nil_2].
  - destruct Hshape as [Hlt ->]. split_and!; [| | |exact Hserve].
    + unfold failures. rewrite length_fmap. lia.
    + unfold failures. rewrite length_fmap. lia.
    + apply Hposts.
Qed.

(** The descriptor made to fail is requested five times, and the service
    receives each of these requests. *)
Lemma fan_out_attempts_witness :
  let out := RegistrationAPIExecutor.api_multi_call (RT := picky) "u"
     [Voter.get_api_args alice 1; Voter.get_api_args bob 1;
      Voter.get_api_args carol 1] 0 in
  (1 ≤ length (post_events 1 out.2) ≤ 5
   ∧ Forall (λ ev, ∃ r, ev = EvPost "u" (Voter.get_api_args bob 1) r)
       (post_events 1 out.2)
   ∧ serve (RT := picky) (posts_sent out.2) 0 = (posts_got out.2, out.1.2))
  ∧ length (post_events 1 out.2) = 5.
Proof.
  split.
  - apply (fan_out_attempts (RT := picky) "u"
       [Voter.get_api_args alice 1; Voter.get_api_args bob 1;
        Voter.get_api_args carol 1] 0 1 (Voter.get_api_args bob 1)).
    reflexivity.
  - vm_compute. reflexivity.
Defined.

(** X7. The search asks, in each of its rounds, at most one request per
    input entry, and gets one response per request; over the twelve rounds
    it dispatches at most 12 times as many requests as there are input
    entries. *)
Theorem search_request_volume `{RT : Runtime} h vs (w : World) :
  let log := RegistrationAPIExecutor.fanouts (RegistrationAPIExecutor.search h vs w) in
  Forall (λ fo, length (RegistrationAPIExecutor.fo_requests fo) ≤ length vs
                ∧ length (RegistrationAPIExecutor.fo_responses fo)
                  = length (RegistrationAPIExecutor.fo_requests fo)) log
  ∧ sum_list ((λ fo, length (RegistrationAPIExecutor.fo_requests fo)) <$> log)
    ≤ 12 * length vs.
Proof.
  cbn zeta. unfold RegistrationAPIExecutor.search.
  assert (Hall := rounds_volume (length vs) RegistrationAPIExecutor.months
                    (RegistrationAPIExecutor.initial h vs w)
                    (le_n _) (Forall_nil_2 _)).
  split; [exact Hall|].
  assert (Hlen : length (RegistrationAPIExecutor.fanouts
                           (fold_left RegistrationAPIExecutor.round
                              RegistrationAPIExecutor.months
                              (RegistrationAPIExecutor.initial h vs w))) = 12).
  { rewrite <- (length_fmap RegistrationAPIExecutor.fo_month).
    by rewrite rounds_fanouts. }
  etrans; [apply (sum_list_bound (length vs))|].
  - apply Forall_fmap. eapply Forall_impl; [|exact Hall]. by intros fo [? _].
  - by rewrite length_fmap, Hlen.
Qed.

(** X8. The search works on the input entries only: the working list stays
    a sublist of the input, every voter returned is an input entry, no entry
    ever changes its first name, last name, birth year or zip, and an entry
    that is not returned is left exactly as it was. *)
Theorem search_touches_only_found_voters `{RT : Runtime} h vs (w : World) :
  let st := RegistrationAPIExecutor.search h vs w in
  sublist (RegistrationAPIExecutor.voters st) vs
  ∧ (∀ v, v ∈ (RegistrationAPIExecutor.get_voters_with_absentee_ballots h vs w).1.1 →
          v ∈ vs)
  ∧ (∀ v, same_identity (RegistrationAPIExecutor.heap st v) (h v))
  ∧ (∀ v, v ∉ (RegistrationAPIExecutor.get_voters_with_absentee_ballots h vs w).1.1 →
          RegistrationAPIExecutor.heap st v = h v).
Proof.
  cbn zeta.
  destruct (search_frame 12 h vs w) as (Hsub & Hreg & Hid & Hsame).
  destruct (after_rounds_inv 12 h vs w) as [_ Hbal].
  rewrite after_rounds_ge in * by lia.
  unfold RegistrationAPIExecutor.get_voters_with_absentee_ballots. cbn [fst snd].
  split_and!; [done| |done|].
  - intros v Hv. rewrite set_order_perm in Hv. apply elem_of_elements in Hv.
    by apply Hreg, Hbal.
  - intros v Hv. apply Hsame. intros Hin. apply Hv.
    rewrite set_order_perm. by apply elem_of_elements.
Qed.
(** X9. When no input entry has a birth month on record (as for records
    of four fields), responses are classified against the entries that were
    asked: after any number of rounds, the next round builds one request per
    entry of the working list, in order, and pairs the i-th entry with the
    response at position i, which is the response to the i-th request the
    fan-out received. *)
Theorem unknown_months_are_paired_correctly `{RT : Runtime} h vs (w : World) n month :
  (∀ v, v ∈ vs → truthy (Voter.birth_month (h v)) = false) →
  let st := RegistrationAPIExecutor.after_rounds n h vs w in
  RegistrationAPIExecutor.requests st month
  = (λ v, Voter.get_api_args (RegistrationAPIExecutor.heap st v) month)
      <$> RegistrationAPIExecutor.voters st
  ∧ length (responses_of st month) = length (RegistrationAPIExecutor.voters st)
  ∧ (classified st month).*1 = RegistrationAPIExecutor.voters st
  ∧ (classified st month).*2 = responses_of st month.
Proof.
  intros Hunknown. cbn zeta.
  set (st := RegistrationAPIExecutor.after_rounds n h vs w).
  destruct (search_frame n h vs w) as (Hsub & _ & _ & Hsame).
  destruct (after_rounds_inv n h vs w) as [Hactive Hbal].
  fold st in Hsub, Hsame, Hactive, Hbal.
  assert (Hreq : RegistrationAPIExecutor.requests st month
    = (λ v, Voter.get_api_args (RegistrationAPIExecutor.heap st v) month)
        <$> RegistrationAPIExecutor.voters st).
  { unfold RegistrationAPIExecutor.requests. rewrite filter_all; [done|].
    intros v Hv. unfold RegistrationAPIExecutor.eligible.
    rewrite Hsame by (intros Hin; by apply (Hactive v Hv), Hbal).
    rewrite Hunknown; [done|]. by eapply elem_of_sublist. }
  assert (Hlen : length (responses_of st month)
                 = length (RegistrationAPIExecutor.voters st)).
  { unfold responses_of. rewrite api_multi_call_length, Hreq.
    by rewrite length_fmap. }
  split_and!; [done|done| |].
  - unfold classified. apply fst_zip. lia.
  - unfold classified. apply snd_zip. lia.
Qed.

(** The first round of a search over two entries without a month: two
    entries in the working list, two requests, two pairs. *)
Lemma unknown_months_are_paired_correctly_witness :
  let st := RegistrationAPIExecutor.after_rounds (RT := picky) 0
              (RegistrationChecker.heap_of [alice; carol]) [0; 1] 0 in
  (RegistrationAPIExecutor.requests st 1
   = (λ v, Voter.get_api_args (RegistrationAPIExecutor.heap st v) 1)
       <$> RegistrationAPIExecutor.voters st
   ∧ length (responses_of (RT := picky) st 1)
     = length (RegistrationAPIExecutor.voters st)
   ∧ (classified (RT := picky) st 1).*1 = RegistrationAPIExecutor.voters st
   ∧ (classified (RT := picky) st 1).*2 = responses_of (RT := picky) st 1)
  ∧ RegistrationAPIExecutor.voters st = [0; 1].
Proof.
  split; [|reflexivity].
  apply (unknown_months_are_paired_correctly (RT := picky)
           (RegistrationChecker.heap_of [alice; carol]) [0; 1] 0 0 1).
  intros v Hv.
  apply elem_of_cons in Hv as [->|Hv]; [reflexivity|].
  apply elem_of_cons in Hv as [->|Hv]; [reflexivity|].
  by apply elem_of_nil in Hv.
Defined.

(** X10. Every record written out has a resolved month: a voter returned by
    the search serializes as its own first name, last name, birth year and
    zip with a month between 1 and 12, never as [Unknown]. *)
Theorem output_records_have_a_month `{RT : Runtime} h vs (w : World) v :
  v ∈ (RegistrationChecker.sorted_voters h vs w).1.1 →
  ∃ m, 1 ≤ m ≤ 12
    ∧ Voter.__str__ ((RegistrationChecker.sorted_voters h vs w).1.2 v)
      = record_of (Voter.first (h v)) (Voter.last (h v)) (py_str (Z.of_nat m))
          (py_str (Voter.birth_year (h v))) (Voter.zip (h v)).
Proof.
  unfold RegistrationChecker.sorted_voters,
    RegistrationAPIExecutor.get_voters_with_absentee_ballots. cbn [fst snd].
  rewrite sort_by_perm, set_order_perm. intros Hv%elem_of_elements.
  destruct (search_frame 12 h vs w) as (_ & _ & Hid & _).
  pose proof (ballots_month 12 h vs w v) as Hm.
  rewrite after_rounds_ge in * by lia.
  destruct (Hm Hv) as (m & Hrange & _ & Hmonth & _).
  destruct (Hid v) as (Hf & Hl & Hy & Hz).
  exists m. split; [lia|]. rewrite str_record, Hmonth, Hf, Hl, Hy, Hz. cbn.
  destruct (Z.eqb_spec (Z.of_nat m) 0); [lia|done].
Qed.

Lemma output_records_have_a_month_witness :
  ∃ m, 1 ≤ m ≤ 12
    ∧ Voter.__str__
        ((RegistrationChecker.sorted_voters (RT := welcoming)
            carol_then_alice [0; 1] 0).1.2 1)
      = record_of (Voter.first (carol_then_alice 1)) (Voter.last (carol_then_alice 1))
          (py_str (Z.of_nat m))
          (py_str (Voter.birth_year (carol_then_alice 1)))
          (Voter.zip (carol_then_alice 1)).
Proof.
  apply (output_records_have_a_month (RT := welcoming) carol_then_alice [0; 1] 0 1).
  vm_compute. apply elem_of_cons. right. apply elem_of_cons. by left.
Defined.
Section Alone.
Context `{RT : Runtime} (url : string).
Import RegistrationAPIExecutor.

Lemma resume_task_alone target i (L : Loop World) :
  alone url target L → alone url target (resume_task url i L).
Proof.
  intros (t & Hts & Hgate & Htarget).
  destruct i as [|i].
  2:{ rewrite resume_task_none; [by exists t|]. by rewrite Hts. }
  assert (Ht : tasks L !! 0 = Some t) by (by rewrite Hts).
  destruct (resume_task_self url 0 L t Ht) as (t' & free & w & evs & Hres & -> & _).
  exists t'. cbn [tasks sem net trace]. rewrite Hts.
  split; [done|].
  destruct t as [[|n todo] a|n todo a|r]; cbn in Hres.
  - injection Hres as <- <- <- <-. split; [by destruct Hgate; auto|].
    cbn in *. by rewrite app_nil_r.
  - destruct (sem L) as [|free0] eqn:Hsem.
    { destruct Hgate as [?|[]]; lia. }
    injection Hres as <- <- <- <-. split; [by right|].
    cbn [fmap list_fmap]. by rewrite app_nil_r.
  - cbn [remaining attempts] in Htarget.
    destruct (post url a (net L)) as [[text|e] w''] eqn:Hpost;
      injection Hres as <- <- <- <-; (split; [left; lia|]).
    + cbn in *. by rewrite app_nil_r.
    + cbn [remaining]. destruct (attempts todo url a w'') as [[res w3] evs3].
      cbn in *. by rewrite <- app_assoc.
  - injection Hres as <- <- <- <-. split; [done|].
    cbn [fmap list_fmap]. by rewrite app_nil_r.
Qed.

End Alone.

(** X11. A fan-out with a single descriptor is [_api_call] run on its own:
    whatever the order of resumptions, it returns that call's result, leaves
    the outside world as that call leaves it, and causes that call's
    effects, in order. *)
Theorem single_fan_out_is_api_call `{RT : Runtime} url argument (w : World) :
  RegistrationAPIExecutor.api_multi_call url [argument] w
  = ([(RegistrationAPIExecutor._api_call url argument w).1.1],
     (RegistrationAPIExecutor._api_call url argument w).1.2,
     (λ ev, (0, ev)) <$> (RegistrationAPIExecutor._api_call url argument w).2).
Proof.
  set (target := ((RegistrationAPIExecutor._api_call url argument w).1.1,
                  (RegistrationAPIExecutor._api_call url argument w).1.2,
                  (λ ev, (0, ev)) <$> (RegistrationAPIExecutor._api_call url argument w).2)).
  assert (Hend : alone url target (RegistrationAPIExecutor.interior url [argument] w)).
  { unfold RegistrationAPIExecutor.interior.
    apply drain_preserves; [intros; by apply resume_task_alone|].
    apply run_preserves; [intros; by apply resume_task_alone|].
    eexists. split; [reflexivity|]. split; [left; cbn; lia|]. done. }
  destruct (interior_ok url [argument] w) as [_ Hfin].
  destruct Hend as (t & Hts & _ & Htarget).
  unfold RegistrationAPIExecutor.api_multi_call.
  rewrite Hts in *. apply Forall_cons_iff in Hfin as [Hfin _].
  destruct t as [| |r]; try done. cbn in Htarget. rewrite app_nil_r in Htarget.
  subst target. injection Htarget as Hr Hw Htr. cbn. by rewrite Hr, Hw, Htr.
Qed.
Lemma init_raises_value_error entry e :
  Voter.__init__ entry = inl e → ∃ msg, e = ValueError msg.
Proof.
  destruct (split "," entry) as [|f [|l [|a [|b [|c [|d rest]]]]]] eqn:Hs;
    try (rewrite init_other by (rewrite Hs; cbn; lia); intros [= <-]; by eexists).
  - rewrite (init_four _ _ _ _ _ Hs). destruct (py_int a); [done|].
    intros [= <-]. by eexists.
  - rewrite (init_five _ _ _ _ _ _ Hs).
    destruct (py_int b); [|intros [= <-]; by eexists].
    destruct (String.eqb a "Unknown"); [done|].
    destruct (String.eqb a ""); [done|].
    destruct (py_int a); [done|]. intros [= <-]. by eexists.
Qed.

Lemma mapE_fails {A B} (f : A → Except B) (l : list A) x e0 :
  x ∈ l → f x = inl e0 → ∃ y e, y ∈ l ∧ f y = inl e ∧ mapE f l = inl e.
Proof.
  induction l as [|a l IH]; [by intros []%elem_of_nil|].
  intros Hx Hfx. cbn [mapE]. unfold bind at 1.
  destruct (f a) as [e|b] eqn:Hfa.
  - exists a, e. split; [by left|done].
  - apply elem_of_cons in Hx as [->|Hx]; [congruence|].
    destruct (IH Hx Hfx) as (y & e & Hy & Hfy & ->).
    exists y, e. split; [by right|done].
Qed.

Section Idle.
Context `{RT : Runtime}.
Import RegistrationAPIExecutor.

Lemma rounds_idle ms (st : State World) :
  voters st = [] →
  voters (fold_left round ms st) = []
  ∧ heap (fold_left round ms st) = heap st
  ∧ voters_with_ballots (fold_left round ms st) = voters_with_ballots st
  ∧ world (fold_left round ms st) = world st.
Proof.
  revert st. induction ms as [|m ms IH]; intros st Hnil; [done|].
  rewrite fold_left_cons_eq. destruct (round_idle st m Hnil) as [_ Hround].
  destruct (IH (round st m)) as (H1 & H2 & H3 & H4); [by rewrite Hround|].
  rewrite H1, H2, H3, H4, Hround. done.
Qed.

Lemma sorted_voters_nil h (w : World) :
  RegistrationChecker.sorted_voters h [] w = ([], h, w).
Proof.
  assert (Hset : set_order ∅ = []).
  { apply Permutation_nil_r. by rewrite set_order_perm, elements_empty. }
  unfold RegistrationChecker.sorted_voters, get_voters_with_absentee_ballots, search.
  cbv zeta.
  destruct (rounds_idle months (initial h [] w) eq_refl) as (_ & Hh & Hbal & Hw).
  rewrite Hh, Hbal, Hw.
  unfold initial. cbn [voters_with_ballots world heap].
  unfold Ref in *. rewrite Hset. done.
Qed.

End Idle.

(** X12. Construction of the batch is all or nothing: when some row of the
    input file is refused by the constructor, the run raises a [ValueError],
    one that a row raised, and writes nothing. *)
Theorem bad_row_aborts_the_run `{RT : Runtime} infile (w : World) row e0 :
  row ∈ rows_of infile →
  Voter.__init__ row = inl e0 →
  ∃ bad msg, bad ∈ rows_of infile
    ∧ Voter.__init__ bad = inl (ValueError msg)
    ∧ RegistrationChecker.get_voters_with_ballots infile w = inl (ValueError msg).
Proof.
  intros Hrow Hbad.
  destruct (mapE_fails Voter.__init__ (rows_of infile) row e0 Hrow Hbad)
    as (bad & e & Hin & Hinit & Hmap).
  destruct (init_raises_value_error bad e Hinit) as [msg ->].
  exists bad, msg. split; [done|]. split; [done|].
  unfold RegistrationChecker.get_voters_with_ballots.
  change (slice_from_to_last 2 1 (split RegistrationChecker.newline (strip infile)))
    with (rows_of infile).
  by rewrite Hmap.
Qed.

(** X13. A file of at most three lines (the two header lines and the
    footer) has no row: the run writes an empty output and leaves the
    outside world as it was. *)
Theorem short_file_gives_empty_output `{RT : Runtime} infile (w : World) :
  length (split RegistrationChecker.newline (strip infile)) ≤ 3 →
  RegistrationChecker.get_voters_with_ballots infile w = inr ("", w).
Proof.
  intros Hlen. unfold RegistrationChecker.get_voters_with_ballots.
  assert (Hrows : slice_from_to_last 2 1
                    (split RegistrationChecker.newline (strip infile)) = []).
  { unfold slice_from_to_last.
    replace (length (split RegistrationChecker.newline (strip infile)) - 2 - 1)
      with 0 by lia. done. }
  rewrite Hrows. cbn [mapE bind ret length seq].
  by rewrite sorted_voters_nil.
Qed.

Lemma bad_row_aborts_the_run_witness :
  ∃ bad msg, bad ∈ rows_of bad_row_file
    ∧ Voter.__init__ bad = inl (ValueError msg)
    ∧ RegistrationChecker.get_voters_with_ballots (RT := welcoming) bad_row_file 0
      = inl (ValueError msg).
Proof.
  apply (bad_row_aborts_the_run (RT := welcoming) bad_row_file 0 "Ann,Lee" bad_fields).
  - vm_compute. apply elem_of_cons. right. apply elem_of_cons. by left.
  - reflexivity.
Defined.

Lemma short_file_gives_empty_output_witness :
  RegistrationChecker.get_voters_with_ballots (RT := welcoming) header_only_file 0
  = inr ("", 0).
Proof.
  apply (short_file_gives_empty_output (RT := welcoming) header_only_file 0).
  vm_compute. lia.
Defined.

(** The end-to-end scenario: Alice is found under month 6 and written out;
    Bob, whose application is not on record, is left out. *)
Example end_to_end_scenario :
  RegistrationChecker.get_voters_with_ballots (RT := scenario_service)
    two_voters_file 0
  = inr ("Alice,Smith,6,1990,48104", 7).
Proof. by vm_compute. Qed.
